(** * kineticsTools.summarizeModifications: the modification summary merge

    A shallow embedding of [ModificationSummary] from
    [kineticsTools/summarizeModifications.py] and the properties of its
    count aggregator, its hit loader and its streaming merge.

    Conventions of the embedding:
    - a Python [str] is a [string]; its characters are the code points
      below 256;
    - a Python [int] is a [Z]; a [len] is a [nat];
    - a [dict] with string keys is a [gmap string _]; the ordered attribute
      dictionary of a GFF record is an association list;
    - the output file is the list of the texts handed to [print], one per
      call, in the order of the calls;
    - exceptions and the mutable state of the loop ([inHeader], [seqMap],
      the output written so far) are threaded by a small state and error
      monad. *)

From Stdlib Require Import ZArith String Ascii List DecimalString DecimalNat.
From stdpp Require Import base option list strings gmap sorting.

Local Open Scope string_scope.

(** ** Python string operations used by the source *)

Module Py.

(** [str.isspace] on the code points below 256. *)
Definition isspace (c : ascii) : bool :=
  match c with
  | "009" | "010" | "011" | "012" | "013"
  | "028" | "029" | "030" | "031" | " "
  | "133" | "160" => true
  | _ => false
  end%char.

(** [s.lstrip()] *)
Fixpoint lstrip (s : string) : string :=
  match s with
  | String c s' => if isspace c then lstrip s' else s
  | EmptyString => EmptyString
  end.

(** [s.rstrip()] *)
Fixpoint rstrip (s : string) : string :=
  match s with
  | String c s' =>
      match rstrip s' with
      | EmptyString => if isspace c then EmptyString else String c EmptyString
      | r => String c r
      end
  | EmptyString => EmptyString
  end.

(** [s.strip()] *)
Definition strip (s : string) : string := lstrip (rstrip s).

(** [s.replace(c, '')] for a one-character [c]. *)
Fixpoint remove (c : ascii) (s : string) : string :=
  match s with
  | String d s' => if Ascii.eqb d c then remove c s' else String d (remove c s')
  | EmptyString => EmptyString
  end.

(** [s.split(sep)] for a one-character [sep]: never the empty list. *)
Fixpoint split (sep : ascii) (s : string) : list string :=
  match s with
  | String c s' =>
      if Ascii.eqb c sep then EmptyString :: split sep s'
      else match split sep s' with
           | w :: ws => String c w :: ws
           | [] => [String c EmptyString]
           end
  | EmptyString => [EmptyString]
  end.

(** [sep.join(l)] *)
Definition join (sep : string) (l : list string) : string :=
  String.concat sep l.

(** [s.partition(sep)] for a one-character [sep]. *)
Fixpoint partition_go (sep : ascii) (s : string)
  : option (string * string) :=
  match s with
  | String c s' =>
      if Ascii.eqb c sep then Some (EmptyString, s')
      else match partition_go sep s' with
           | Some (a, b) => Some (String c a, b)
           | None => None
           end
  | EmptyString => None
  end.

Definition partition (sep : ascii) (s : string)
  : string * string * string :=
  match partition_go sep s with
  | Some (a, b) => (a, String sep EmptyString, b)
  | None => (s, EmptyString, EmptyString)
  end.

(** [str(n)] for a non-negative [int]. *)
Definition str_nat (n : nat) : string :=
  NilZero.string_of_uint (Nat.to_uint n).

(** [str(z)] for an [int]. *)
Definition str_int (z : Z) : string :=
  NilZero.string_of_int (Z.to_int z).

(** [x in l] for a list of strings. *)
Definition contains (l : list string) (x : string) : bool :=
  bool_decide (x ∈ l).

(** A non-negative integer string: one decimal digit or more. *)
Definition isdigit (c : ascii) : bool :=
  match c with
  | "0" | "1" | "2" | "3" | "4" | "5" | "6" | "7" | "8" | "9" => true
  | _ => false
  end%char.

Fixpoint all_digits (s : string) : bool :=
  match s with
  | String c s' => isdigit c && all_digits s'
  | EmptyString => true
  end.

Definition is_nat_string (s : string) : bool :=
  match s with
  | EmptyString => false
  | _ => all_digits s
  end.

(** [int(s)] on a non-negative integer string. *)
Definition int_of_nat_string (s : string) : option nat :=
  if is_nat_string s then Nat.of_uint <$> NilZero.uint_of_string s else None.

(** [sorted(l, key=key)]: the stable sort by a string key. *)
Section sorted.
Context {A : Type} (key : A → string).

Fixpoint insort (x : A) (l : list A) : list A :=
  match l with
  | [] => [x]
  | y :: l' =>
      if decide (String.le (key x) (key y)) then x :: y :: l'
      else y :: insort x l'
  end.

Fixpoint sorted (l : list A) : list A :=
  match l with
  | [] => []
  | x :: l' => insort x (sorted l')
  end.

(** [itertools.groupby(l, key)] with every group read off as a list:
    the maximal runs of consecutive elements with equal keys.
    [k] is the key of the run being collected and [g] the run so far. *)
Fixpoint groupby_go (k : string) (g : list A) (l : list A)
  : list (string * list A) :=
  match l with
  | [] => [(k, g)]
  | x :: l' =>
      if decide (key x = k) then groupby_go k (g ++ [x]) l'
      else (k, g) :: groupby_go (key x) [x] l'
  end.

Definition groupby (l : list A) : list (string * list A) :=
  match l with
  | [] => []
  | x :: l' => groupby_go (key x) [x] l'
  end.
End sorted.

(** [dict(pairs)]: later pairs win. *)
Definition dict {V : Type} (pairs : list (string * V)) : gmap string V :=
  foldl (λ d kv, <[kv.1 := kv.2]> d) ∅ pairs.

End Py.

(** ** Data model *)

(** Modelled from the spec: [pbcore.io.Gff3Record], the feature record of
    the external GFF reader, is not part of the repository.  It has the
    eight fixed columns and an ordered dictionary of attributes; assigning
    to a name that is not a column ([rec.modsfwd = v]) stores the value in
    the attribute dictionary.  The merge reads [seqid], [type], [start],
    [end] and [strand] only; the score and the phase are carried as
    text. *)
Module Gff3Record.
Record t : Type := mk {
  seqid : string;
  source : string;
  type : string;
  start : Z;
  end_ : Z;
  score : string;
  strand : string;
  phase : string;
  attributes : list (string * string)
}.

(** [attributes[k]], [None] for a missing key. *)
Fixpoint get (k : string) (d : list (string * string)) : option string :=
  match d with
  | [] => None
  | (k', v) :: d' => if decide (k' = k) then Some v else get k d'
  end.

(** [attributes[k] = v] on an ordered dictionary: a present key keeps its
    place, a new key goes last. *)
Fixpoint set (k v : string) (d : list (string * string))
  : list (string * string) :=
  match d with
  | [] => [(k, v)]
  | (k', v') :: d' =>
      if decide (k' = k) then (k, v) :: d' else (k', v') :: set k v d'
  end.

Definition getattr (r : t) (k : string) : option string :=
  get k (attributes r).

Definition setattr (r : t) (k v : string) : t :=
  mk (seqid r) (source r) (type r) (start r) (end_ r) (score r)
     (strand r) (phase r) (set k v (attributes r)).
End Gff3Record.

(** The external GFF record reader and writer: [Gff3Record.fromString]
    ([None] when it raises [ValueError]) and [str(rec)]. *)
Class Gff3Codec : Type := {
  fromString : string → option Gff3Record.t;
  toString : Gff3Record.t → string
}.

(** A modification hit: the dictionary with the keys [pos], [strand],
    [seqid] and [type] built by the loader. *)
Module Hit.
Record t : Type := mk {
  pos : Z;
  strand : string;
  seqid : string;
  type : string
}.
End Hit.

(** [self.knownModificationEvents], set by [run]. *)
Definition knownModificationEvents : list string :=
  ["modified_base"; "m6A"; "m4C"; "m5C"].

(** ** The count aggregator *)

(** [ModificationSummary.countModificationTypes] *)
Definition countModificationTypes (mods : list Hit.t) : gmap string nat :=
  let mods := Py.sorted Hit.type mods in
  let counts := Py.dict ((λ x, (x, 0)) <$> knownModificationEvents) in
  foldl (λ counts kg, <[kg.1 := length kg.2]> counts) counts
        (Py.groupby Hit.type mods).

(** ** The modification loader *)

(** The list comprehension that builds [hits] from the records yielded by
    the reader of the modification file. *)
Fixpoint loadHits (modReader : list Gff3Record.t) : list Hit.t :=
  match modReader with
  | [] => []
  | x :: rest =>
      if Py.contains knownModificationEvents (Gff3Record.type x)
      then Hit.mk (Gff3Record.start x) (Gff3Record.strand x)
                  (Gff3Record.seqid x) (Gff3Record.type x) :: loadHits rest
      else loadHits rest
  end.

(** ** The state and error monad of the main loop *)

Inductive exn : Type := ValueError | IndexError | KeyError.

(** What the loop mutates: the lines printed to the output file so far,
    [self.seqMap] and the flag [inHeader]. *)
Record state : Type := mkState {
  written : list string;
  seqMap : gmap string string;
  inHeader : bool
}.

Inductive result (A : Type) : Type :=
| Val (a : A)
| Raise (e : exn).
Arguments Val {A} a.
Arguments Raise {A} e.

Definition M (A : Type) : Type := state → result A * state.

Global Instance M_ret : MRet M := λ A a st, (Val a, st).

Global Instance M_bind : MBind M := λ A B f m st,
  match m st with
  | (Val a, st') => f a st'
  | (Raise e, st') => (Raise e, st')
  end.

Definition raise {A : Type} (e : exn) : M A := λ st, (Raise e, st).

(** [print(s, file=summaryWriter)] *)
Definition print (s : string) : M unit := λ st,
  (Val tt, mkState (written st ++ [s]) (seqMap st) (inHeader st)).

(** [self.seqMap[k] = v] *)
Definition setSeqMap (k v : string) : M unit := λ st,
  (Val tt, mkState (written st) (<[k := v]> (seqMap st)) (inHeader st)).

Definition getInHeader : M bool := λ st, (Val (inHeader st), st).

Definition setInHeader (b : bool) : M unit := λ st,
  (Val tt, mkState (written st) (seqMap st) b).

(** A value that is there or an exception. *)
Definition orRaise {A : Type} (e : exn) (o : option A) : M A :=
  match o with
  | Some a => mret a
  | None => raise e
  end.

(** [for x in l: body(x)] *)
Fixpoint for_ {A : Type} (l : list A) (body : A → M unit) : M unit :=
  match l with
  | [] => mret tt
  | x :: l' => body x;; for_ l' body
  end.

(** ** The streaming merge *)

Definition dquote : string := String "034"%char EmptyString.

(** [headerString] of [_mainLoop] *)
Definition headerString : string :=
  Py.join "," ((λ x, dquote ++ x ++ dquote) <$> knownModificationEvents).

(** [headers] of [_mainLoop]; [argv] is [sys.argv]. *)
Definition headers (argv : list string) : list (string * string) :=
  [ ("source", "kineticModificationCaller 1.3.3");
    ("source-commandline", Py.join " " argv);
    ("attribute-description",
     "modsfwd - count of detected DNA modifications on forward strand by modification event type");
    ("attribute-description",
     "modsrev - count of detected DNA modifications on reverse strand by modification event type");
    ("region-modsfwd", headerString);
    ("region-modsfwd", headerString) ].

(** The text of one injected header line: ["##%s %s" % field]. *)
Definition headerLine (field : string * string) : string :=
  "##" ++ field.1 ++ " " ++ field.2.

(** [intervalHits]: the hits inside the closed interval of the record, on
    the sequence of the record. *)
Definition intervalHits (hits : list Hit.t) (rec : Gff3Record.t)
  : list Hit.t :=
  filter (λ h, ((Gff3Record.start rec ≤ Hit.pos h)%Z
                ∧ (Hit.pos h ≤ Gff3Record.end_ rec)%Z)
               ∧ Gff3Record.seqid rec = Hit.seqid h) hits.

(** [[str(c[x]) for x in self.knownModificationEvents]]: [None] when a
    lookup raises [KeyError]. *)
Definition countTokens (c : gmap string nat) : option (list string) :=
  mapM (λ x, Py.str_nat <$> c !! x) knownModificationEvents.

(** The body of [if rec.type == 'region':] up to the [print]. *)
Definition annotate (hits : list Hit.t) (rec : Gff3Record.t)
  : option Gff3Record.t :=
  let intervalHits := intervalHits hits rec in
  let cFwd :=
    countModificationTypes (filter (λ h, Hit.strand h = "+") intervalHits) in
  let cRev :=
    countModificationTypes (filter (λ h, Hit.strand h = "-") intervalHits) in
  fwd ← countTokens cFwd;
  let rec := Gff3Record.setattr rec "modsfwd" (Py.join "," fwd) in
  rev ← countTokens cRev;
  Some (Gff3Record.setattr rec "modsrev" (Py.join "," rev)).

Section mainLoop.
Context {codec : Gff3Codec}.

(** The body of [for line in summaryFile:]. *)
Definition body (argv : list string) (hits : list Hit.t) (line : string)
  : M unit :=
  match line with
  | EmptyString => raise IndexError
  | String c _ =>
      if Ascii.eqb c "#" then
        match Py.split " " (Py.remove "#" line) with
        | [] => raise IndexError
        | field :: rest =>
            let value := Py.join " " rest in
            (if String.eqb field "sequence-header" then
               let '(internalTag, delim, externalTag) :=
                 Py.partition " " (Py.strip value) in
               setSeqMap internalTag externalTag
             else mret tt);;
            print (Py.strip line)
        end
      else
        h ← getInHeader;
        (if h : bool then
           for_ (headers argv) (λ field, print (headerLine field));;
           setInHeader false
         else mret tt);;
        rec ← orRaise ValueError (fromString line);
        if String.eqb (Gff3Record.type rec) "region" then
          rec ← orRaise KeyError (annotate hits rec);
          print (toString rec)
        else mret tt
  end.

(** [ModificationSummary._mainLoop]: [modReader] is the list of records
    the reader of the modification file yields, [summaryFile] the lines of
    the alignment summary as the file iterator yields them (each with its
    line end).  The result is the returned value or the exception, with
    the final state (the output file is [written]). *)
Definition _mainLoop (argv : list string) (modReader : list Gff3Record.t)
  (summaryFile : list string) : result Z * state :=
  let hits := loadHits modReader in
  (for_ summaryFile (body argv hits);; mret 0%Z) (mkState [] ∅ true).

(** [ModificationSummary.run] with [profile=False]. *)
Definition run (argv : list string) (modReader : list Gff3Record.t)
  (summaryFile : list string) : result Z * state :=
  _mainLoop argv modReader summaryFile.

End mainLoop.

(** ** A concrete reader and writer for running the merge on text *)

(** Modelled from the spec: the GFF record reader and writer is an external
    collaborator ([pbcore.io.Gff3Record]) whose code is not part of the
    repository.  This instance reads the tab-delimited feature line of
    section 6 of the spec (nine columns, the last one a list of
    [key=value] attributes separated by semicolons) and writes it back.
    The score and phase columns are kept as text.  It is used to run the
    merge on concrete lines only: every general theorem below holds for
    any reader and writer. *)
Module Pbcore.

Definition tab : ascii := "009"%char.

(** [s.rstrip(c)] for a one-character [c]. *)
Fixpoint rstrip_char (c : ascii) (s : string) : string :=
  match s with
  | String d s' =>
      match rstrip_char c s' with
      | EmptyString => if Ascii.eqb d c then EmptyString else String d EmptyString
      | r => String d r
      end
  | EmptyString => EmptyString
  end.

(** [int(s)] on a decimal integer with an optional minus sign. *)
Definition parse_int (s : string) : option Z :=
  match s with
  | String "-" s' => (λ n, (- Z.of_nat n)%Z) <$> Py.int_of_nat_string s'
  | _ => Z.of_nat <$> Py.int_of_nat_string s
  end.

Definition tupleFromGffAttribute (s : string) : option (string * string) :=
  match Py.split "=" s with
  | [k; v] => Some (k, v)
  | _ => None
  end.

Definition parse (s : string) : option Gff3Record.t :=
  match Py.split tab (rstrip_char ";" (Py.rstrip s)) with
  | [seqid; source; type; start; end_; score; strand; phase; attrs] =>
      start ← parse_int start;
      end_ ← parse_int end_;
      pairs ← mapM tupleFromGffAttribute (Py.split ";" attrs);
      Some (Gff3Record.mk seqid source type start end_ score strand phase
              (foldl (λ d kv, Gff3Record.set kv.1 kv.2 d) [] pairs))
  | _ => None
  end.

Definition format (r : Gff3Record.t) : string :=
  Py.join (String tab EmptyString)
    [ Gff3Record.seqid r; Gff3Record.source r; Gff3Record.type r;
      Py.str_int (Gff3Record.start r); Py.str_int (Gff3Record.end_ r);
      Gff3Record.score r; Gff3Record.strand r; Gff3Record.phase r;
      Py.join ";" ((λ kv, kv.1 ++ "=" ++ kv.2) <$> Gff3Record.attributes r) ].

Definition codec : Gff3Codec :=
  {| fromString := parse; toString := format |}.

End Pbcore.

(** Text of a feature line from its columns, and the line end. *)
Definition tsv (cols : list string) : string :=
  Py.join (String Pbcore.tab EmptyString) cols.
Definition nl : string := String "010"%char EmptyString.

(** ** Vocabulary of the statements *)

(** [c] does not occur in [s]. *)
Fixpoint no_char (c : ascii) (s : string) : bool :=
  match s with
  | String d s' => negb (Ascii.eqb d c) && no_char c s'
  | EmptyString => true
  end.


(** The number of elements of [l] whose key is [k]. *)
Definition count_key {A : Type} (key : A → string) (k : string) (l : list A)
  : nat :=
  length (filter (λ x, key x = k) l).

(** The number of hits of [l] whose type tag is [k]. *)
Definition count_type (k : string) (l : list Hit.t) : nat :=
  count_key Hit.type k l.

(** The per-type counts of a list of hits, in the order of the known
    event types. *)
Definition counts_of (l : list Hit.t) : list nat :=
  (λ k, count_type k l) <$> knownModificationEvents.

(** The hit the loader builds from a record of the modification file. *)
Definition hit_of (x : Gff3Record.t) : Hit.t :=
  Hit.mk (Gff3Record.start x) (Gff3Record.strand x)
         (Gff3Record.seqid x) (Gff3Record.type x).

(** The hits of a region on one strand. *)
Definition strandHits (s : string) (hits : list Hit.t) (rec : Gff3Record.t)
  : list Hit.t :=
  filter (λ h, Hit.strand h = s) (intervalHits hits rec).

(** The text of a count attribute. *)
Definition countText (counts : list nat) : string :=
  Py.join "," (Py.str_nat <$> counts).

(** A region record with its two count attributes set. *)
Definition annotated (hits : list Hit.t) (rec : Gff3Record.t)
  : Gff3Record.t :=
  Gff3Record.setattr
    (Gff3Record.setattr rec "modsfwd"
       (countText (counts_of (strandHits "+" hits rec))))
    "modsrev" (countText (counts_of (strandHits "-" hits rec))).

(** A metadata line: [line[0] == "#"]. *)
Definition is_meta (line : string) : bool :=
  match line with
  | String c _ => Ascii.eqb c "#"
  | EmptyString => false
  end.

(** A feature line: a line that is not empty and is not a metadata line. *)
Definition is_feature (line : string) : bool :=
  match line with
  | String c _ => negb (Ascii.eqb c "#")
  | EmptyString => false
  end.

(** The injected block of metadata lines. *)
Definition headerBlock (argv : list string) : list string :=
  headerLine <$> headers argv.

(** The text written ahead of a feature line: the injected block when
    the line is the first feature line, nothing otherwise. *)
Definition injected (argv : list string) (st : state) : list string :=
  if inHeader st then headerBlock argv else [].

Section vocabulary.
Context {codec : Gff3Codec}.

(** A feature line the reader rejects. *)
Definition malformed (line : string) : Prop :=
  is_feature line = true ∧ fromString line = None.

(** A line the loop body gets through. *)
Definition line_ok (line : string) : Prop :=
  is_meta line = true ∨ (is_feature line = true ∧ is_Some (fromString line)).

(** What a well-formed line contributes to the output, the injected
    block apart. *)
Definition emitted (hits : list Hit.t) (line : string) : list string :=
  if is_meta line then [Py.strip line]
  else match fromString line with
       | Some rec =>
           if String.eqb (Gff3Record.type rec) "region"
           then [toString (annotated hits rec)]
           else []
       | None => []
       end.

(** The output of the merge on well-formed lines: [h] is [inHeader]. *)
Fixpoint out_lines (argv : list string) (hits : list Hit.t) (h : bool)
  (lines : list string) : list string :=
  match lines with
  | [] => []
  | line :: rest =>
      if is_meta line then Py.strip line :: out_lines argv hits h rest
      else (if h then headerBlock argv else [])
             ++ emitted hits line ++ out_lines argv hits false rest
  end.

End vocabulary.

(** ** Concrete inputs *)

Module Ex.

(** [sys.argv] of a run. *)
Definition argv : list string :=
  ["summarizeModifications"; "mods.gff"; "summary.gff"; "out.gff"].

Definition version_line : string := "##gff-version 3" ++ nl.
Definition seqhdr_line : string := "##sequence-header ref000001 chr1" ++ nl.
Definition late_line : string := "##date today" ++ nl.

(** A region feature line for [chr1] spanning [50, 150]. *)
Definition region_line : string :=
  tsv ["chr1"; "."; "region"; "50"; "150"; "0.00"; "+"; ".";
       "cov=3,4,5;gaps=0,0"] ++ nl.

Definition region_rec : Gff3Record.t :=
  Gff3Record.mk "chr1" "." "region" 50 150 "0.00" "+" "."
    [("cov", "3,4,5"); ("gaps", "0,0")].

(** A feature line whose type is not [region]. *)
Definition gene_line : string :=
  tsv ["chr1"; "."; "gene"; "60"; "90"; "0.00"; "+"; "."; "ID=g1"] ++ nl.

Definition gene_rec : Gff3Record.t :=
  Gff3Record.mk "chr1" "." "gene" 60 90 "0.00" "+" "." [("ID", "g1")].

(** A line that is not a feature record. *)
Definition bad_line : string := "not a feature record" ++ nl.

(** Records of a modification file. *)
Definition m6A_rec : Gff3Record.t :=
  Gff3Record.mk "chr1" "kinModCall" "m6A" 100 100 "42" "+" "."
    [("coverage", "30")].

Definition m4C_rev_rec : Gff3Record.t :=
  Gff3Record.mk "chr1" "kinModCall" "m4C" 150 150 "37" "-" "."
    [("coverage", "28")].

Definition chr2_rec : Gff3Record.t :=
  Gff3Record.mk "chr2" "kinModCall" "m5C" 100 100 "40" "+" "."
    [("coverage", "31")].

Definition unstranded_rec : Gff3Record.t :=
  Gff3Record.mk "chr1" "kinModCall" "m6A" 120 120 "40" "." "."
    [("coverage", "31")].

Definition other_type_rec : Gff3Record.t :=
  Gff3Record.mk "chr1" "kinModCall" "insertion" 100 100 "40" "+" "." [].

(** A hit whose type tag is not a known event type. *)
Definition foo_hit : Hit.t := Hit.mk 7 "+" "chr1" "foo".

End Ex.

(** ** Further vocabulary *)

(** A feature line that parses to a record of type [region]. *)
Definition is_region_line `{codec : Gff3Codec} (line : string) : bool :=
  negb (is_meta line)
  && match fromString line with
     | Some rec => String.eqb (Gff3Record.type rec) "region"
     | None => false
     end.

(** The sum of the values of a count mapping. *)
Definition count_total (c : gmap string nat) : nat :=
  map_fold (λ _ n acc, n + acc) 0 c.

(** Further concrete inputs. *)
Module Ex2.

(** A region record whose interval is empty: [start] is after [end]. *)
Definition empty_region_rec : Gff3Record.t :=
  Gff3Record.mk "chr1" "." "region" 150 50 "0.00" "+" "." [("cov", "0,0,0")].

(** A region record that already carries the two count attributes. *)
Definition counted_region_rec : Gff3Record.t :=
  Gff3Record.mk "chr1" "." "region" 50 150 "0.00" "+" "."
    [("modsfwd", "9,9,9,9"); ("cov", "3,4,5"); ("modsrev", "8,8,8,8")].



End Ex2.

(** The numbers a count attribute of a record stands for: the attribute
    split at the commas, each token read as an integer. *)
Definition attrCounts (rec : Gff3Record.t) (k : string) : option (list nat) :=
  Gff3Record.getattr rec k
  ≫= λ v, mapM Py.int_of_nat_string (Py.split "," v).

(** The numbers written for a region record under the attribute [k]. *)
Definition writtenCounts (hits : list Hit.t) (rec : Gff3Record.t)
  (k : string) : option (list nat) :=
  annotate hits rec ≫= λ rec', attrCounts rec' k.

(** What a metadata line notes in [seqMap]: the internal and the external
    tag, when the line is a sequence-header line. *)
Definition seqHeader (line : string) : option (string * string) :=
  match Py.split " " (Py.remove "#" line) with
  | field :: rest =>
      if String.eqb field "sequence-header" then
        let '(internalTag, _, externalTag) :=
          Py.partition " " (Py.strip (Py.join " " rest)) in
        Some (internalTag, externalTag)
      else None
  | [] => None
  end.

(** Every character of [s] satisfies [p]. *)
Fixpoint all_chars (p : ascii → bool) (s : string) : bool :=
  match s with
  | String c s' => p c && all_chars p s'
  | EmptyString => true
  end.

(** The text of a sequence-header line. *)
Definition seqHeaderLine (id name : string) : string :=
  "##sequence-header " ++ id ++ " " ++ name ++ nl.

(** [seqMap] after a line: a sequence-header line stores its tags, any
    other line leaves the map as it is. *)
Definition noted (line : string) (m : gmap string string)
  : gmap string string :=
  if is_meta line
  then match seqHeader line with
       | Some (a, b) => <[a := b]> m
       | None => m
       end
  else m.

(** * Properties *)

Local Open Scope list_scope.

(** ** Decimal strings and splitting *)

Section strings.

Lemma all_digits_string_of_uint d :
  Py.all_digits (NilEmpty.string_of_uint d) = true.
Proof. induction d; simpl; auto. Qed.

Lemma to_uint_nonnil n : Nat.to_uint n ≠ Decimal.Nil.
Proof.
  rewrite <- (DecimalNat.Unsigned.of_to n) at 1.
  rewrite DecimalNat.Unsigned.to_of.
  unfold Decimal.unorm. destruct (Decimal.nzhead (Nat.to_uint n)); discriminate.
Qed.

Lemma str_nat_NilEmpty n :
  Py.str_nat n = NilEmpty.string_of_uint (Nat.to_uint n).
Proof.
  unfold Py.str_nat, NilZero.string_of_uint.
  pose proof (to_uint_nonnil n). destruct (Nat.to_uint n); congruence.
Qed.

Lemma str_nat_nonempty n : Py.str_nat n ≠ EmptyString.
Proof.
  rewrite str_nat_NilEmpty. pose proof (to_uint_nonnil n).
  destruct (Nat.to_uint n); simpl; congruence.
Qed.

Lemma str_nat_is_nat_string n : Py.is_nat_string (Py.str_nat n) = true.
Proof.
  pose proof (str_nat_nonempty n) as Hne.
  unfold Py.is_nat_string. destruct (Py.str_nat n) eqn:E; [done|].
  rewrite <- E, str_nat_NilEmpty. apply all_digits_string_of_uint.
Qed.

Lemma int_of_str_nat n : Py.int_of_nat_string (Py.str_nat n) = Some n.
Proof.
  unfold Py.int_of_nat_string. rewrite str_nat_is_nat_string.
  unfold Py.str_nat. rewrite NilZero.usu by apply to_uint_nonnil.
  simpl. by rewrite DecimalNat.Unsigned.of_to.
Qed.

Lemma all_digits_no_char c s :
  Py.isdigit c = false → Py.all_digits s = true → no_char c s = true.
Proof.
  intros Hc. induction s as [|d s IH]; simpl; [done|].
  intros [Hd Hs]%andb_true_iff. rewrite IH by done.
  destruct (Ascii.eqb_spec d c) as [->|]; [congruence|done].
Qed.

Lemma str_nat_no_comma n : no_char "," (Py.str_nat n) = true.
Proof.
  apply all_digits_no_char; [done|].
  rewrite str_nat_NilEmpty. apply all_digits_string_of_uint.
Qed.

Lemma split_no_char c s : no_char c s = true → Py.split c s = [s].
Proof.
  induction s as [|d s IH]; simpl; [done|].
  intros [Hd Hs]%andb_true_iff. rewrite IH by done.
  by destruct (Ascii.eqb d c).
Qed.

Lemma split_app_sep c s t :
  no_char c s = true →
  Py.split c (s +:+ String c t) = s :: Py.split c t.
Proof.
  induction s as [|d s IH]; simpl.
  - intros _. by rewrite Ascii.eqb_refl.
  - intros [Hd Hs]%andb_true_iff. rewrite IH by done.
    by destruct (Ascii.eqb d c).
Qed.

(** Splitting a joined list of separator-free tokens gives the tokens. *)
Lemma split_join c toks :
  toks ≠ [] → Forall (λ s, no_char c s = true) toks →
  Py.split c (Py.join (String c EmptyString) toks) = toks.
Proof.
  unfold Py.join. induction toks as [|s toks IH]; [done|].
  intros _ Hall. apply Forall_cons in Hall as [Hs Hall].
  destruct toks as [|s' toks].
  - simpl. by apply split_no_char.
  - change (String.concat (String c EmptyString) (s :: s' :: toks))
      with (s +:+ String c (String.concat (String c EmptyString) (s' :: toks))).
    rewrite split_app_sep by done. f_equal. by apply IH.
Qed.

End strings.

(** ** The model on concrete inputs *)

Example split_spaces : Py.split " " "a  b c" = ["a"; ""; "b"; "c"].
Proof. reflexivity. Qed.

Example split_empty : Py.split " " "" = [""].
Proof. reflexivity. Qed.

Example strip_line : Py.strip ("  ##gff-version 3 " +:+ nl) = "##gff-version 3".
Proof. reflexivity. Qed.

Example partition_first : Py.partition " " "ref000001 chr1 x" = ("ref000001", " ", "chr1 x").
Proof. reflexivity. Qed.

Example partition_none : Py.partition " " "ref000001" = ("ref000001", "", "").
Proof. reflexivity. Qed.

Example str_nat_examples :
  Py.str_nat 0 = "0" ∧ Py.str_nat 7 = "7" ∧ Py.str_nat 120 = "120".
Proof. by vm_compute. Qed.

Example sorted_is_stable :
  Py.sorted Hit.type
    [Hit.mk 1 "+" "s" "m6A"; Hit.mk 2 "+" "s" "m4C"; Hit.mk 3 "-" "s" "m6A";
     Hit.mk 4 "+" "s" "m4C"]
  = [Hit.mk 2 "+" "s" "m4C"; Hit.mk 4 "+" "s" "m4C"; Hit.mk 1 "+" "s" "m6A";
     Hit.mk 3 "-" "s" "m6A"].
Proof. by vm_compute. Qed.

Example groupby_runs :
  Py.groupby id ["a"; "a"; "b"; "a"]
  = [("a", ["a"; "a"]); ("b", ["b"]); ("a", ["a"])].
Proof. by vm_compute. Qed.

Example headerString_text :
  headerString
  = dquote +:+ "modified_base" +:+ dquote +:+ "," +:+ dquote +:+ "m6A"
    +:+ dquote +:+ "," +:+ dquote +:+ "m4C" +:+ dquote +:+ ","
    +:+ dquote +:+ "m5C" +:+ dquote.
Proof. reflexivity. Qed.

Example parse_region_line :
  @fromString Pbcore.codec Ex.region_line = Some Ex.region_rec.
Proof. by vm_compute. Qed.

Example parse_bad_line : @fromString Pbcore.codec Ex.bad_line = None.
Proof. by vm_compute. Qed.

(** A whole run: metadata lines are written trimmed, the block is injected
    ahead of the first feature line, region records are written with their
    counts, the gene record is not written, and the sequence header is
    noted in [seqMap]. *)
Example run_on_text :
  @run Pbcore.codec Ex.argv
    [Ex.m6A_rec; Ex.other_type_rec; Ex.m4C_rev_rec; Ex.chr2_rec;
     Ex.unstranded_rec]
    [Ex.version_line; Ex.seqhdr_line; Ex.region_line; Ex.gene_line;
     Ex.late_line]
  = (Val 0%Z,
     mkState
       (["##gff-version 3"; "##sequence-header ref000001 chr1"]
        ++ headerBlock Ex.argv
        ++ [tsv ["chr1"; "."; "region"; "50"; "150"; "0.00"; "+"; ".";
                 "cov=3,4,5;gaps=0,0;modsfwd=0,1,0,0;modsrev=0,0,1,0"];
            "##date today"])
       {["ref000001" := "chr1"]} false).
Proof. by vm_compute. Qed.

Example headerBlock_text :
  headerBlock Ex.argv
  = ["##source kineticModificationCaller 1.3.3";
     "##source-commandline summarizeModifications mods.gff summary.gff out.gff";
     "##attribute-description modsfwd - count of detected DNA modifications on forward strand by modification event type";
     "##attribute-description modsrev - count of detected DNA modifications on reverse strand by modification event type";
     "##region-modsfwd " +:+ headerString;
     "##region-modsfwd " +:+ headerString].
Proof. reflexivity. Qed.

(** ** Sorting and grouping by a key *)

Section sorted_groupby.
Context {A : Type} (key : A → string).

Local Abbreviation R := (λ x y : A, String.le (key x) (key y)).
Local Abbreviation cnt := (count_key key).

Lemma count_key_nil k : cnt k [] = 0.
Proof. done. Qed.

Lemma count_key_cons k x l :
  cnt k (x :: l) = (if decide (key x = k) then S (cnt k l) else cnt k l).
Proof. unfold count_key. rewrite filter_cons. by case_decide. Qed.

Lemma count_key_app k l1 l2 : cnt k (l1 ++ l2) = cnt k l1 + cnt k l2.
Proof. unfold count_key. by rewrite filter_app, length_app. Qed.

Lemma count_key_Permutation k l1 l2 : l1 ≡ₚ l2 → cnt k l1 = cnt k l2.
Proof. intros Hp. unfold count_key. by rewrite Hp. Qed.

Lemma count_key_zero k l : cnt k l = 0 ↔ k ∉ key <$> l.
Proof.
  induction l as [|x l IH]; [rewrite count_key_nil; set_solver|].
  rewrite count_key_cons, fmap_cons, not_elem_of_cons.
  case_decide as Hk.
  - split; [lia|]. intros [Hne _]. by destruct Hne.
  - rewrite IH. split; [by split|tauto].
Qed.

Lemma insort_Permutation x l : Py.insort key x l ≡ₚ x :: l.
Proof.
  induction l as [|y l IH]; simpl; [done|].
  case_decide; [done|]. rewrite IH. apply Permutation_swap.
Qed.

Lemma sorted_Permutation l : Py.sorted key l ≡ₚ l.
Proof.
  induction l as [|x l IH]; simpl; [done|].
  by rewrite insort_Permutation, IH.
Qed.

Lemma insort_StronglySorted x l :
  StronglySorted R l → StronglySorted R (Py.insort key x l).
Proof.
  induction 1 as [|y l Hl IH Hy]; simpl; [repeat constructor|].
  case_decide as Hxy.
  - constructor; [by constructor|]. constructor; [done|].
    eapply Forall_impl; [exact Hy|]. intros z Hz. simpl in *. by etrans.
  - constructor; [done|].
    rewrite insort_Permutation. constructor; [|done].
    destruct (total String.le (key x) (key y)); done.
Qed.

Lemma sorted_StronglySorted l : StronglySorted R (Py.sorted key l).
Proof.
  induction l; simpl; [constructor|]. by apply insort_StronglySorted.
Qed.

(** The stable sort keeps elements with equal keys in their order. *)
Lemma insort_filter k x l :
  StronglySorted R l →
  filter (λ y, key y = k) (Py.insort key x l)
  = filter (λ y, key y = k) (x :: l).
Proof.
  induction 1 as [|y l Hl IH Hy]; simpl; [done|].
  case_decide as Hxy; [done|].
  rewrite !filter_cons in *. rewrite IH.
  repeat case_decide; try done.
  destruct Hxy. replace (key x) with (key y) by congruence. done.
Qed.

Lemma sorted_filter k l :
  filter (λ y, key y = k) (Py.sorted key l) = filter (λ y, key y = k) l.
Proof.
  induction l as [|x l IH]; simpl; [done|].
  rewrite insort_filter by apply sorted_StronglySorted.
  rewrite !filter_cons. by rewrite IH.
Qed.

(** Storing the length of every group of a sorted list, in order, leaves
    at every key that occurs the number of its occurrences. *)
Lemma foldl_groupby_go (V := nat) l : ∀ k0 g (c : gmap string nat) k,
  StronglySorted R l →
  Forall (λ x, String.le k0 (key x)) l →
  foldl (λ c kg, <[kg.1 := length kg.2]> c) c (Py.groupby_go key k0 g l) !! k
  = if decide (k = k0) then Some (length g + cnt k l)
    else if decide (cnt k l = 0) then c !! k
    else Some (cnt k l).
Proof.
  induction l as [|x l IH]; intros k0 g c k Hs Hle; simpl.
  - rewrite lookup_insert. rewrite count_key_nil.
    repeat case_decide; subst; try done. by rewrite Nat.add_0_r.
  - apply StronglySorted_cons in Hs as [Hx Hs].
    apply Forall_cons in Hle as [Hk0x Hle].
    rewrite count_key_cons.
    destruct (decide (key x = k0)) as [Hxk|Hxk].
    + rewrite IH by done. rewrite length_app. simpl.
      repeat case_decide; subst; try done. f_equal; lia.
    + simpl. rewrite IH by done.
      assert (cnt k0 l = 0) as Hzero.
      { apply count_key_zero. intros (y & Hy & Hin)%list_elem_of_fmap.
        rewrite Forall_forall in Hx. specialize (Hx y Hin). simpl in Hx.
        apply Hxk. apply (anti_symm String.le); [by rewrite Hy|done]. }
      rewrite lookup_insert.
      repeat case_decide; subst; try done; try lia.
      by rewrite Hzero, Nat.add_0_r.
Qed.

Lemma foldl_groupby l (c : gmap string nat) k :
  StronglySorted R l →
  foldl (λ c kg, <[kg.1 := length kg.2]> c) c (Py.groupby key l) !! k
  = if decide (cnt k l = 0) then c !! k else Some (cnt k l).
Proof.
  intros Hs. destruct l as [|x l]; [done|]. unfold Py.groupby.
  apply StronglySorted_cons in Hs as [Hx Hs].
  rewrite foldl_groupby_go by done. rewrite count_key_cons. simpl.
  repeat case_decide; subst; try done.
Qed.

End sorted_groupby.

(** ** The count aggregator *)

Lemma dict_zero_lookup (ks : list string) k :
  Py.dict ((λ x, (x, 0)) <$> ks) !! k
  = if decide (k ∈ ks) then Some 0 else None.
Proof.
  unfold Py.dict.
  assert (∀ d : gmap string nat,
    foldl (λ d kv, <[kv.1 := kv.2]> d) d ((λ x, (x, 0)) <$> ks) !! k
    = if decide (k ∈ ks) then Some 0 else d !! k) as Hgen.
  { induction ks as [|x ks IH]; intros d.
    - by rewrite decide_False by apply not_elem_of_nil.
    - rewrite fmap_cons. simpl foldl. rewrite IH, lookup_insert.
      destruct (decide (k ∈ ks)) as [Hin|Hin].
      + rewrite decide_True; [done|by right].
      + destruct (decide (x = k)) as [->|Hne]; simpl.
        * rewrite decide_True; [done|by left].
        * rewrite decide_False; [done|]. rewrite elem_of_cons. intros [->|?]; done. }
  rewrite Hgen. by rewrite lookup_empty.
Qed.

(** The mapping returned by the count aggregator, key by key. *)
Lemma countModificationTypes_lookup mods k :
  countModificationTypes mods !! k
  = if decide (count_type k mods = 0)
    then (if decide (k ∈ knownModificationEvents) then Some 0 else None)
    else Some (count_type k mods).
Proof.
  unfold countModificationTypes, count_type.
  rewrite foldl_groupby by apply sorted_StronglySorted.
  rewrite (count_key_Permutation _ _ _ _ (sorted_Permutation Hit.type mods)).
  case_decide; [|done]. apply dict_zero_lookup.
Qed.

Lemma countModificationTypes_known mods k :
  k ∈ knownModificationEvents →
  countModificationTypes mods !! k = Some (count_type k mods).
Proof.
  intros Hk. rewrite countModificationTypes_lookup.
  repeat case_decide; congruence.
Qed.

Lemma countModificationTypes_Permutation mods mods' :
  mods ≡ₚ mods' → countModificationTypes mods = countModificationTypes mods'.
Proof.
  intros Hp. apply map_eq. intros k.
  rewrite !countModificationTypes_lookup. unfold count_type.
  by rewrite (count_key_Permutation _ _ _ _ Hp).
Qed.

Lemma countModificationTypes_dom mods :
  dom (countModificationTypes mods)
  = list_to_set (knownModificationEvents ++ (Hit.type <$> mods)).
Proof.
  apply set_eq. intros k.
  rewrite elem_of_dom, countModificationTypes_lookup.
  rewrite elem_of_list_to_set, elem_of_app.
  unfold count_type.
  pose proof (count_key_zero Hit.type k mods) as Hz.
  destruct (decide (count_key Hit.type k mods = 0)) as [Hc|Hc].
  - apply Hz in Hc. destruct (decide (k ∈ knownModificationEvents)).
    + split; [by left|by eexists].
    + split; [by intros ?%is_Some_None|tauto].
  - split; [|by eexists]. intros _. right.
    destruct (decide (k ∈ Hit.type <$> mods)); [done|]. tauto.
Qed.

(** ** Attributes of a record *)

Lemma get_set_eq k v d : Gff3Record.get k (Gff3Record.set k v d) = Some v.
Proof.
  induction d as [|[k' v'] d IH]; simpl.
  - by rewrite decide_True.
  - destruct (decide (k' = k)) as [->|Hne]; simpl.
    + by rewrite decide_True.
    + by rewrite decide_False.
Qed.

Lemma get_set_ne k k' v d :
  k ≠ k' → Gff3Record.get k' (Gff3Record.set k v d) = Gff3Record.get k' d.
Proof.
  intros Hne. induction d as [|[k0 v0] d IH]; simpl.
  - by rewrite decide_False.
  - destruct (decide (k0 = k)) as [->|Hne0]; simpl.
    + by rewrite !decide_False.
    + by rewrite IH.
Qed.

Lemma getattr_setattr_eq r k v :
  Gff3Record.getattr (Gff3Record.setattr r k v) k = Some v.
Proof. apply get_set_eq. Qed.

Lemma getattr_setattr_ne r k k' v :
  k ≠ k' →
  Gff3Record.getattr (Gff3Record.setattr r k v) k'
  = Gff3Record.getattr r k'.
Proof. apply get_set_ne. Qed.

(** ** Annotation of a region record *)

Lemma countTokens_eq l :
  countTokens (countModificationTypes l) = Some (Py.str_nat <$> counts_of l).
Proof.
  unfold countTokens, counts_of, knownModificationEvents. simpl.
  rewrite !countModificationTypes_known
    by (unfold knownModificationEvents; set_solver).
  done.
Qed.

(** No lookup of a known event type raises: the annotation is total. *)
Lemma annotate_eq hits rec : annotate hits rec = Some (annotated hits rec).
Proof.
  unfold annotate, annotated, strandHits, countText.
  rewrite !countTokens_eq. done.
Qed.

Lemma annotated_modsfwd hits rec :
  Gff3Record.getattr (annotated hits rec) "modsfwd"
  = Some (countText (counts_of (strandHits "+" hits rec))).
Proof.
  unfold annotated. rewrite getattr_setattr_ne by done.
  apply getattr_setattr_eq.
Qed.

Lemma annotated_modsrev hits rec :
  Gff3Record.getattr (annotated hits rec) "modsrev"
  = Some (countText (counts_of (strandHits "-" hits rec))).
Proof. apply getattr_setattr_eq. Qed.

Lemma split_countText counts :
  counts ≠ [] → Py.split "," (countText counts) = Py.str_nat <$> counts.
Proof.
  intros Hne. unfold countText. apply split_join.
  - by destruct counts.
  - apply Forall_fmap, Forall_forall. intros n _. apply str_nat_no_comma.
Qed.

Lemma counts_of_length l : length (counts_of l) = 4.
Proof. done. Qed.

Lemma counts_of_lookup l i k :
  knownModificationEvents !! i = Some k →
  counts_of l !! i = Some (count_type k l).
Proof. intros Hk. unfold counts_of. by rewrite list_lookup_fmap, Hk. Qed.

(** ** The loop body, case by case *)

Ltac unfold_M :=
  unfold mbind, mret, M_bind, M_ret, raise, print, setSeqMap, getInHeader,
    setInHeader, orRaise in *.

Lemma bind_val {A B} (m : M A) (f : A → M B) st a st' :
  m st = (Val a, st') → (m ≫= f) st = f a st'.
Proof. intros Hm. unfold mbind, M_bind. by rewrite Hm. Qed.

Lemma bind_raise {A B} (m : M A) (f : A → M B) st e st' :
  m st = (Raise e, st') → (m ≫= f) st = (Raise e, st').
Proof. intros Hm. unfold mbind, M_bind. by rewrite Hm. Qed.

Lemma bind_getInHeader {B} (f : bool → M B) st :
  (getInHeader ≫= f) st = f (inHeader st) st.
Proof. done. Qed.

Lemma split_nonempty c s : Py.split c s ≠ [].
Proof.
  destruct s as [|d s]; simpl; [done|].
  destruct (Ascii.eqb d c); [done|]. by destruct (Py.split c s).
Qed.

Lemma is_meta_feature line :
  line ≠ EmptyString → is_feature line = negb (is_meta line).
Proof. by destruct line. Qed.

Lemma is_feature_not_meta line : is_feature line = true → is_meta line = false.
Proof. destruct line; simpl; [done|]. by intros ->%negb_true_iff. Qed.

Lemma for_app {A} (l1 l2 : list A) (f : A → M unit) st :
  for_ (l1 ++ l2) f st
  = match for_ l1 f st with
    | (Val _, st') => for_ l2 f st'
    | (Raise e, st') => (Raise e, st')
    end.
Proof.
  revert st. induction l1 as [|x l1 IH]; intros st; simpl; [done|].
  unfold_M. destruct (f x st) as [[[]|e] st']; [apply IH|done].
Qed.

Lemma for_headers argv st :
  for_ (headers argv) (λ field, print (headerLine field)) st
  = (Val tt, mkState (written st ++ headerBlock argv) (seqMap st)
               (inHeader st)).
Proof.
  unfold headers, headerBlock. simpl. unfold_M. simpl.
  by rewrite <- !app_assoc.
Qed.

Section body.
Context {codec : Gff3Codec}.
Variables (argv : list string) (hits : list Hit.t).

(** A metadata line is printed stripped; the flag is left alone. *)
Lemma body_meta line st :
  is_meta line = true →
  ∃ m, body argv hits line st
       = (Val tt, mkState (written st ++ [Py.strip line]) m (inHeader st)).
Proof.
  destruct line as [|c s]; [done|]. intros Hc.
  change (Ascii.eqb c "#" = true) in Hc. unfold body. rewrite Hc.
  pose proof (split_nonempty " " (Py.remove "#" (String c s))) as Hne.
  destruct (Py.split " " (Py.remove "#" (String c s))) as [|field rest];
    [done|].
  destruct (String.eqb field "sequence-header").
  - destruct (Py.partition " " (Py.strip (Py.join " " rest)))
      as [[internalTag delim] externalTag].
    unfold_M. simpl. by eexists.
  - unfold_M. simpl. by eexists.
Qed.

Lemma body_prelude line st :
  is_feature line = true →
  body argv hits line st
  = (rec ← orRaise ValueError (fromString line);
     if String.eqb (Gff3Record.type rec) "region" then
       rec ← orRaise KeyError (annotate hits rec);
       print (toString rec)
     else mret tt)
      (mkState (written st ++ injected argv st) (seqMap st) false).
Proof.
  destruct line as [|c s]; [done|]. intros Hc.
  change (negb (Ascii.eqb c "#") = true) in Hc. apply negb_true_iff in Hc.
  unfold body. rewrite Hc, bind_getInHeader. unfold injected.
  destruct st as [w m h]. cbn [inHeader written seqMap]. destruct h.
  - erewrite (bind_val (A:=unit)); [reflexivity|].
    erewrite bind_val by apply for_headers. reflexivity.
  - rewrite app_nil_r. erewrite (bind_val (A:=unit)); reflexivity.
Qed.

(** A feature line that parses: a region record is printed with its
    counts, any other record is not printed. *)
Lemma body_feature line rec st :
  is_feature line = true → fromString line = Some rec →
  body argv hits line st
  = (Val tt,
     mkState (written st ++ injected argv st
              ++ (if String.eqb (Gff3Record.type rec) "region"
                  then [toString (annotated hits rec)] else []))
             (seqMap st) false).
Proof.
  intros Hf Hp. rewrite body_prelude by done. rewrite Hp.
  unfold_M. simpl.
  destruct (String.eqb (Gff3Record.type rec) "region").
  - rewrite annotate_eq. simpl. by rewrite app_assoc.
  - by rewrite app_nil_r.
Qed.

(** A feature line the reader rejects raises, after the injected block
    has been written when the line is the first feature line. *)
Lemma body_malformed line st :
  malformed line →
  body argv hits line st
  = (Raise ValueError,
     mkState (written st ++ injected argv st) (seqMap st) false).
Proof.
  intros [Hf Hp]. rewrite body_prelude by done. rewrite Hp. done.
Qed.

Lemma body_empty st :
  body argv hits EmptyString st = (Raise IndexError, st).
Proof. done. Qed.

End body.

(** ** The loop over the lines *)

Section loop.
Context {codec : Gff3Codec}.
Variables (argv : list string) (hits : list Hit.t).

Lemma emitted_meta line :
  is_meta line = true → emitted hits line = [Py.strip line].
Proof. intros Hm. unfold emitted. by rewrite Hm. Qed.

Lemma emitted_feature line rec :
  is_meta line = false → fromString line = Some rec →
  emitted hits line
  = if String.eqb (Gff3Record.type rec) "region"
    then [toString (annotated hits rec)] else [].
Proof. intros Hm Hp. unfold emitted. by rewrite Hm, Hp. Qed.

Lemma out_lines_false lines :
  out_lines argv hits false lines = flat_map (emitted hits) lines.
Proof.
  induction lines as [|l lines IH]; simpl; [done|]. rewrite IH.
  destruct (is_meta l) eqn:Hm; [|done]. by rewrite emitted_meta.
Qed.

Lemma out_lines_meta_app h pre rest :
  Forall (λ l, is_meta l = true) pre →
  out_lines argv hits h (pre ++ rest)
  = (Py.strip <$> pre) ++ out_lines argv hits h rest.
Proof.
  induction 1 as [|l pre Hl _ IH]; simpl; [done|]. by rewrite Hl, IH.
Qed.

Lemma out_lines_meta h pre :
  Forall (λ l, is_meta l = true) pre →
  out_lines argv hits h pre = Py.strip <$> pre.
Proof.
  intros Hpre. rewrite <- (app_nil_r pre) at 1.
  rewrite out_lines_meta_app by done. simpl. by rewrite app_nil_r.
Qed.

Lemma out_lines_feature line rest :
  is_meta line = false →
  out_lines argv hits true (line :: rest)
  = headerBlock argv ++ flat_map (emitted hits) (line :: rest).
Proof. intros Hm. simpl. by rewrite Hm, out_lines_false. Qed.

Lemma forallb_is_meta (lines : list string) :
  forallb is_meta lines = true ↔ Forall (λ l, is_meta l = true) lines.
Proof.
  rewrite forallb_forall, Forall_forall.
  split; intros H l Hl; apply H; by apply list_elem_of_In.
Qed.

(** Well-formed lines are all processed, and the output is [out_lines]. *)
Lemma for_ok lines : ∀ st,
  Forall line_ok lines →
  ∃ m, for_ lines (body argv hits) st
       = (Val tt,
          mkState (written st ++ out_lines argv hits (inHeader st) lines) m
                  (inHeader st && forallb is_meta lines)).
Proof.
  induction lines as [|l lines IH]; intros st Hok.
  - exists (seqMap st). simpl. rewrite app_nil_r, andb_true_r.
    by destruct st.
  - apply Forall_cons in Hok as [Hl Hok]. simpl for_.
    destruct Hl as [Hm|[Hf [rec Hp]]].
    + destruct (body_meta argv hits l st Hm) as [m Hb].
      erewrite (bind_val (A:=unit)) by exact Hb.
      destruct (IH (mkState (written st ++ [Py.strip l]) m (inHeader st)) Hok)
        as [m' ->].
      exists m'. simpl. rewrite Hm, <- app_assoc. done.
    + pose proof (is_feature_not_meta _ Hf) as Hm.
      erewrite (bind_val (A:=unit)) by (by apply body_feature).
      edestruct IH as [m' ->]; [exact Hok|].
      exists m'. simpl. rewrite Hm, andb_false_r.
      rewrite (emitted_feature _ _ Hm Hp). unfold injected.
      by rewrite <- !app_assoc.
Qed.

(** Metadata lines only: every line is printed stripped, nothing else. *)
Lemma for_meta pre st :
  Forall (λ l, is_meta l = true) pre →
  ∃ m, for_ pre (body argv hits) st
       = (Val tt, mkState (written st ++ (Py.strip <$> pre)) m (inHeader st)).
Proof.
  intros Hpre.
  destruct (for_ok pre st) as [m ->].
  { eapply Forall_impl; [exact Hpre|]. intros l Hl. by left. }
  exists m. rewrite out_lines_meta by done.
  apply forallb_is_meta in Hpre. by rewrite Hpre, andb_true_r.
Qed.

(** The first malformed feature line stops the loop. *)
Lemma for_malformed pre bad post st :
  Forall line_ok pre → malformed bad →
  ∃ m, for_ (pre ++ bad :: post) (body argv hits) st
       = (Raise ValueError,
          mkState (written st ++ out_lines argv hits (inHeader st) pre
                   ++ (if inHeader st && forallb is_meta pre
                       then headerBlock argv else []))
                  m false).
Proof.
  intros Hpre Hbad. rewrite for_app.
  destruct (for_ok pre st Hpre) as [m ->]. simpl for_.
  erewrite bind_raise by (by apply body_malformed).
  exists m. unfold injected. simpl. by rewrite <- app_assoc.
Qed.

(** A malformed feature line anywhere makes the loop raise. *)
Lemma for_raises lines :
  Exists malformed lines →
  ∀ st, ∃ e st', for_ lines (body argv hits) st = (Raise e, st').
Proof.
  induction 1 as [bad lines Hbad|l lines _ IH]; intros st; simpl for_.
  - erewrite bind_raise by (by apply body_malformed). by do 2 eexists.
  - destruct (body argv hits l st) as [[[]|e] st'] eqn:Hb.
    + erewrite (bind_val (A:=unit)) by exact Hb. apply IH.
    + erewrite bind_raise by exact Hb. by do 2 eexists.
Qed.

End loop.

Lemma mainLoop_for `{codec : Gff3Codec} argv modReader summaryFile :
  _mainLoop argv modReader summaryFile
  = match for_ summaryFile (body argv (loadHits modReader))
            (mkState [] ∅ true) with
    | (Val _, st) => (Val 0%Z, st)
    | (Raise e, st) => (Raise e, st)
    end.
Proof. done. Qed.

(** ** The loader and the hits of a region *)

Lemma contains_spec l x : Py.contains l x = true ↔ x ∈ l.
Proof. unfold Py.contains. apply bool_decide_eq_true. Qed.

Lemma loadHits_filter modReader :
  loadHits modReader
  = hit_of <$> filter (λ x, Gff3Record.type x ∈ knownModificationEvents)
                      modReader.
Proof.
  induction modReader as [|x rest IH]; [done|].
  simpl loadHits. rewrite filter_cons.
  destruct (Py.contains knownModificationEvents (Gff3Record.type x)) eqn:Hc.
  - apply contains_spec in Hc. rewrite decide_True by done.
    rewrite fmap_cons. by rewrite IH.
  - rewrite decide_False; [done|]. intros Hin%contains_spec. congruence.
Qed.

Lemma loadHits_app l1 l2 : loadHits (l1 ++ l2) = loadHits l1 ++ loadHits l2.
Proof. by rewrite !loadHits_filter, filter_app, fmap_app. Qed.

Lemma loadHits_known modReader :
  Forall (λ h, Hit.type h ∈ knownModificationEvents) (loadHits modReader).
Proof.
  rewrite loadHits_filter. apply Forall_fmap, Forall_forall.
  intros x [Hx _]%list_elem_of_filter. done.
Qed.

Lemma elem_of_loadHits modReader h :
  h ∈ loadHits modReader
  ↔ ∃ x, x ∈ modReader
       ∧ Gff3Record.type x ∈ knownModificationEvents ∧ h = hit_of x.
Proof.
  rewrite loadHits_filter, list_elem_of_fmap.
  split.
  - intros (x & -> & [Hk Hx]%list_elem_of_filter). by exists x.
  - intros (x & Hx & Hk & ->). exists x. split; [done|].
    by apply list_elem_of_filter.
Qed.

Lemma elem_of_intervalHits hits rec h :
  h ∈ intervalHits hits rec
  ↔ h ∈ hits
    ∧ Hit.seqid h = Gff3Record.seqid rec
    ∧ (Gff3Record.start rec ≤ Hit.pos h ≤ Gff3Record.end_ rec)%Z.
Proof.
  unfold intervalHits. rewrite list_elem_of_filter.
  split; [intros [[[? ?] ->] ?]|intros (? & <- & ? & ?)]; done.
Qed.

Lemma intervalHits_app hits1 hits2 rec :
  intervalHits (hits1 ++ hits2) rec
  = intervalHits hits1 rec ++ intervalHits hits2 rec.
Proof. unfold intervalHits. by rewrite filter_app. Qed.

Lemma intervalHits_known hits rec :
  Forall (λ h, Hit.type h ∈ knownModificationEvents) hits →
  Forall (λ h, Hit.type h ∈ knownModificationEvents) (intervalHits hits rec).
Proof.
  rewrite !Forall_forall. intros H h [Hh _]%elem_of_intervalHits. auto.
Qed.

(** Every hit of a known type is counted under exactly one type. *)
Lemma sum_counts_of l :
  Forall (λ h, Hit.type h ∈ knownModificationEvents) l →
  sum_list (counts_of l) = length l.
Proof.
  unfold counts_of, knownModificationEvents, count_type.
  induction 1 as [|h l Hh _ IH]; [done|].
  simpl in IH |- *. rewrite !count_key_cons.
  rewrite !elem_of_cons in Hh.
  destruct Hh as [Hh|[Hh|[Hh|[Hh|Hh]]]]; [..|by apply elem_of_nil in Hh];
    rewrite Hh; repeat case_decide; try done; lia.
Qed.

(** ** Hits by strand *)

Lemma strandHits_app s hits1 hits2 rec :
  strandHits s (hits1 ++ hits2) rec
  = strandHits s hits1 rec ++ strandHits s hits2 rec.
Proof. unfold strandHits. by rewrite intervalHits_app, filter_app. Qed.

Lemma strandHits_cons_other s h hits rec :
  Hit.strand h ≠ s → strandHits s (h :: hits) rec = strandHits s hits rec.
Proof.
  intros Hs. unfold strandHits, intervalHits. rewrite filter_cons.
  case_decide; [|done]. rewrite filter_cons. by rewrite decide_False.
Qed.

Lemma strandHits_known s hits rec :
  Forall (λ h, Hit.type h ∈ knownModificationEvents) hits →
  Forall (λ h, Hit.type h ∈ knownModificationEvents) (strandHits s hits rec).
Proof.
  intros Hk. apply (intervalHits_known _ rec) in Hk.
  rewrite Forall_forall in Hk. apply Forall_forall.
  intros h [_ Hh]%list_elem_of_filter. by apply Hk.
Qed.

Lemma count_type_strandHits k s hits rec :
  count_type k (strandHits s hits rec)
  = length (filter (λ h, Hit.type h = k ∧ Hit.strand h = s)
                   (intervalHits hits rec)).
Proof.
  unfold count_type, count_key, strandHits. by rewrite list_filter_filter.
Qed.

(** Hits on the two strands only: the two strand lists split the list. *)
Lemma length_by_strand (l : list Hit.t) :
  Forall (λ h, Hit.strand h = "+" ∨ Hit.strand h = "-") l →
  length (filter (λ h, Hit.strand h = "+") l)
  + length (filter (λ h, Hit.strand h = "-") l)
  = length l.
Proof.
  induction 1 as [|h l Hh _ IH]; [done|].
  rewrite !filter_cons.
  destruct Hh as [Hh|Hh]; rewrite Hh; simpl; lia.
Qed.

Lemma countText_parse counts :
  counts ≠ [] →
  mapM Py.int_of_nat_string (Py.split "," (countText counts)) = Some counts.
Proof.
  intros Hne. rewrite split_countText by done.
  apply mapM_fmap_Some. apply int_of_str_nat.
Qed.

(** ** The flag, dropped lines and the dependence on the hits *)

Section loop_more.
Context {codec : Gff3Codec}.
Variables (argv : list string).

(** The flag is cleared by the first feature line and never set again. *)
Lemma body_inHeader hits line st u st' :
  body argv hits line st = (Val u, st') →
  inHeader st' = inHeader st && is_meta line.
Proof.
  destruct (is_meta line) eqn:Hm.
  - destruct (body_meta argv hits line st Hm) as [m ->].
    intros [= _ <-]. simpl. by rewrite andb_true_r.
  - destruct line as [|c s]; [done|].
    assert (is_feature (String c s) = true) as Hf
      by (rewrite is_meta_feature by done; by rewrite Hm).
    destruct (fromString (String c s)) as [rec|] eqn:Hp.
    + rewrite (body_feature argv hits _ rec) by done.
      intros [= _ <-]. simpl. by rewrite andb_false_r.
    + by rewrite body_malformed.
Qed.

Lemma for_inHeader hits lines : ∀ st u st',
  for_ lines (body argv hits) st = (Val u, st') →
  inHeader st' = inHeader st && forallb is_meta lines.
Proof.
  induction lines as [|l lines IH]; intros st u st'; simpl for_.
  - intros [= _ <-]. simpl. by rewrite andb_true_r.
  - destruct (body argv hits l st) as [[[]|e] st1] eqn:Hb.
    + erewrite (bind_val (A:=unit)) by exact Hb. intros Hfor.
      rewrite (IH _ _ _ Hfor), (body_inHeader _ _ _ _ _ Hb). simpl.
      by rewrite andb_assoc.
    + by erewrite bind_raise by exact Hb.
Qed.

(** A feature record that is not a region leaves the state as it is once
    the injected block has been written. *)
Lemma body_not_region hits line rec st :
  is_feature line = true → fromString line = Some rec →
  Gff3Record.type rec ≠ "region" →
  body argv hits line st
  = (Val tt, mkState (written st ++ injected argv st) (seqMap st) false).
Proof.
  intros Hf Hp Ht. rewrite (body_feature argv hits _ rec) by done.
  apply String.eqb_neq in Ht. rewrite Ht. by rewrite app_nil_r.
Qed.

Lemma body_not_region_idle hits line rec st :
  is_feature line = true → fromString line = Some rec →
  Gff3Record.type rec ≠ "region" → inHeader st = false →
  body argv hits line st = (Val tt, st).
Proof.
  intros Hf Hp Ht Hh. rewrite (body_not_region _ _ rec) by done.
  unfold injected. rewrite Hh, app_nil_r. destruct st; simpl in *; by subst.
Qed.

(** Nothing after a malformed feature line is looked at. *)
Lemma for_malformed_cut hits pre bad post st :
  malformed bad →
  for_ (pre ++ bad :: post) (body argv hits) st
  = for_ (pre ++ [bad]) (body argv hits) st.
Proof.
  intros Hbad. rewrite !for_app.
  destruct (for_ pre (body argv hits) st) as [[[]|e] st']; [|done].
  simpl for_. by rewrite !(bind_raise _ _ _ _ _ (body_malformed _ _ _ _ Hbad)).
Qed.

(** The body reads the hits through the annotation of region records
    only. *)
Lemma body_hits_ext hits1 hits2 line st :
  (∀ rec, fromString line = Some rec → Gff3Record.type rec = "region" →
          annotated hits1 rec = annotated hits2 rec) →
  body argv hits1 line st = body argv hits2 line st.
Proof.
  intros Hext. destruct line as [|c s]; [done|].
  destruct (is_meta (String c s)) eqn:Hm.
  - change (Ascii.eqb c "#" = true) in Hm. unfold body. by rewrite Hm.
  - assert (is_feature (String c s) = true) as Hf
      by (rewrite is_meta_feature by done; by rewrite Hm).
    destruct (fromString (String c s)) as [rec|] eqn:Hp.
    + rewrite !(body_feature argv _ _ rec) by done.
      destruct (String.eqb_spec (Gff3Record.type rec) "region") as [Ht|Ht];
        [|done].
      by rewrite (Hext rec).
    + by rewrite !body_malformed.
Qed.

Lemma for_hits_ext hits1 hits2 lines : ∀ st,
  (∀ line rec, line ∈ lines → fromString line = Some rec →
               Gff3Record.type rec = "region" →
               annotated hits1 rec = annotated hits2 rec) →
  for_ lines (body argv hits1) st = for_ lines (body argv hits2) st.
Proof.
  induction lines as [|l lines IH]; intros st Hext; [done|]. simpl for_.
  unfold mbind, M_bind.
  rewrite (body_hits_ext hits1 hits2 l st)
    by (intros rec; apply Hext; by left).
  destruct (body argv hits2 l st) as [[[]|e] st1]; [|done].
  apply IH. intros line rec Hin. apply Hext. by right.
Qed.

End loop_more.

(** The annotation depends on the hits of the region only. *)
Lemma annotated_ext hits1 hits2 rec :
  intervalHits hits1 rec = intervalHits hits2 rec →
  annotated hits1 rec = annotated hits2 rec.
Proof. intros H. unfold annotated, strandHits. by rewrite H. Qed.

Lemma annotated_strand_ext hits1 hits2 rec :
  strandHits "+" hits1 rec = strandHits "+" hits2 rec →
  strandHits "-" hits1 rec = strandHits "-" hits2 rec →
  annotated hits1 rec = annotated hits2 rec.
Proof. intros Hf Hr. unfold annotated. by rewrite Hf, Hr. Qed.

(** * The claims *)

(** A concrete text is not in a concrete list of other texts. *)
Ltac not_in_list :=
  let H := fresh "H" in
  intros H; repeat (apply elem_of_cons in H as [H|H]; [done|]);
  by apply elem_of_nil in H.

(** ** C1: feature lines of another type than region *)

(** C1, as stated, fails: a feature line whose type is [gene] parses, the
    run returns 0, and the output holds the injected block only; the
    record is not written. *)
Lemma C1_gene_line_not_written :
  @fromString Pbcore.codec Ex.gene_line = Some Ex.gene_rec
  ∧ Gff3Record.type Ex.gene_rec = "gene"
  ∧ @_mainLoop Pbcore.codec Ex.argv [Ex.m6A_rec] [Ex.gene_line]
    = (Val 0%Z, mkState (headerBlock Ex.argv) ∅ false)
  ∧ @toString Pbcore.codec Ex.gene_rec ∉ headerBlock Ex.argv.
Proof.
  split; [by vm_compute|]. split; [done|]. split; [by vm_compute|].
  vm_compute. not_in_list.
Qed.

(** C1 (amended): a feature line whose type is not [region] is parsed and
    dropped.  Processing it writes no record: the only text written is the
    injected block when the line is the first feature line, and once an
    earlier feature line has been seen the run is the run on the input
    without the line. *)
Theorem C1_non_region_line_dropped `{codec : Gff3Codec}
    (argv : list string) (modReader : list Gff3Record.t)
    (line : string) (rec : Gff3Record.t) :
  is_feature line = true →
  fromString line = Some rec →
  Gff3Record.type rec ≠ "region" →
  (∀ st, body argv (loadHits modReader) line st
         = (Val tt,
            mkState (written st ++ injected argv st) (seqMap st) false))
  ∧ (∀ pre post,
       Exists (λ l, is_feature l = true) pre →
       _mainLoop argv modReader (pre ++ line :: post)
       = _mainLoop argv modReader (pre ++ post)).
Proof.
  intros Hf Hp Ht. split.
  - intros st. by apply (body_not_region _ _ _ rec).
  - intros pre post Hpre. rewrite !mainLoop_for, !for_app.
    destruct (for_ pre _ _) as [[[]|e] st] eqn:Hfor; [|done].
    simpl for_. apply for_inHeader in Hfor. simpl in Hfor.
    assert (forallb is_meta pre = false) as Hnm.
    { apply not_true_is_false. intros Hall%forallb_is_meta.
      apply Exists_exists in Hpre as (l & Hl & Hlf).
      rewrite Forall_forall in Hall. specialize (Hall l Hl).
      apply is_feature_not_meta in Hlf. congruence. }
    rewrite Hnm in Hfor.
    by erewrite (bind_val (A:=unit))
      by (by apply (body_not_region_idle _ _ _ rec)).
Qed.

(** The amended C1 on text: a gene line as first feature line writes the block only, and after a region line it changes nothing. *)
Lemma C1_non_region_line_dropped_witness :
  @body Pbcore.codec Ex.argv (loadHits [Ex.m6A_rec]) Ex.gene_line
    (mkState [] ∅ true)
  = (Val tt, mkState (headerBlock Ex.argv) ∅ false)
  ∧ @_mainLoop Pbcore.codec Ex.argv [Ex.m6A_rec]
      [Ex.region_line; Ex.gene_line]
    = @_mainLoop Pbcore.codec Ex.argv [Ex.m6A_rec] [Ex.region_line].
Proof.
  destruct (@C1_non_region_line_dropped Pbcore.codec Ex.argv [Ex.m6A_rec]
              Ex.gene_line Ex.gene_rec) as [Hbody Hrun].
  - reflexivity.
  - vm_compute. reflexivity.
  - vm_compute. discriminate.
  - split.
    + exact (Hbody (mkState [] ∅ true)).
    + apply (Hrun [Ex.region_line] []). by left.
Defined.

(** ** C2: metadata lines and the injected block *)

(** C2, as stated, fails.  An input of metadata lines only is passed
    through and no line of the block is written; a metadata line that
    follows a feature line is written after the block, so the block does
    not follow the last metadata line; and a metadata line that follows a
    malformed feature line is not written at all. *)
Lemma C2_block_not_always_after_metadata :
  (@_mainLoop Pbcore.codec Ex.argv [Ex.m6A_rec]
     [Ex.version_line; Ex.seqhdr_line]).1 = Val 0%Z
  ∧ written (@_mainLoop Pbcore.codec Ex.argv [Ex.m6A_rec]
               [Ex.version_line; Ex.seqhdr_line]).2
    = ["##gff-version 3"; "##sequence-header ref000001 chr1"]
  ∧ Forall (λ h, h ∉ ["##gff-version 3"; "##sequence-header ref000001 chr1"])
           (headerBlock Ex.argv)
  ∧ written (@_mainLoop Pbcore.codec Ex.argv [Ex.m6A_rec]
               [Ex.version_line; Ex.region_line; Ex.late_line]).2
    = ["##gff-version 3"] ++ headerBlock Ex.argv
      ++ [@toString Pbcore.codec (annotated [hit_of Ex.m6A_rec] Ex.region_rec);
          "##date today"]
  ∧ @_mainLoop Pbcore.codec Ex.argv [Ex.m6A_rec]
      [Ex.version_line; Ex.bad_line; Ex.late_line]
    = (Raise ValueError,
       mkState (["##gff-version 3"] ++ headerBlock Ex.argv) ∅ false)
  ∧ ("##date today" ∉ ["##gff-version 3"] ++ headerBlock Ex.argv).
Proof.
  split; [by vm_compute|]. split; [by vm_compute|].
  split; [vm_compute; repeat constructor; not_in_list|].
  split; [by vm_compute|]. split; [by vm_compute|].
  vm_compute. not_in_list.
Qed.

(** C2 (amended): on an input the merge gets through, every metadata
    line, sequence-header lines included, is written trimmed, in the order
    of the input.  The block of six lines (source, source-commandline, two
    attribute-description, two region-modsfwd) is written once when the
    input has a feature line, right after the metadata lines that precede
    the first feature line and before anything written for that line; it
    is not written when the input has no feature line. *)
Theorem C2_metadata_passthrough_and_block `{codec : Gff3Codec}
    (argv : list string) (modReader : list Gff3Record.t)
    (pre : list string) :
  Forall (λ l, is_meta l = true) pre →
  (∃ m, _mainLoop argv modReader pre
        = (Val 0%Z, mkState (Py.strip <$> pre) m true))
  ∧ (∀ line post,
       is_feature line = true → Forall line_ok (line :: post) →
       ∃ m, _mainLoop argv modReader (pre ++ line :: post)
            = (Val 0%Z,
               mkState ((Py.strip <$> pre) ++ headerBlock argv
                        ++ flat_map (emitted (loadHits modReader))
                                    (line :: post))
                       m false))
  ∧ (∀ line, is_meta line = true →
             emitted (loadHits modReader) line = [Py.strip line])
  ∧ (headerBlock argv = headerLine <$> headers argv
     ∧ (headers argv).*1
       = ["source"; "source-commandline"; "attribute-description";
          "attribute-description"; "region-modsfwd"; "region-modsfwd"]).
Proof.
  intros Hpre. repeat split.
  - rewrite mainLoop_for.
    destruct (for_meta argv (loadHits modReader) pre (mkState [] ∅ true) Hpre)
      as [m ->].
    by exists m.
  - intros line post Hf Hok. rewrite mainLoop_for.
    destruct (for_ok argv (loadHits modReader) (pre ++ line :: post)
                (mkState [] ∅ true)) as [m ->].
    { apply Forall_app. split; [|done].
      eapply Forall_impl; [exact Hpre|]. intros l Hl. by left. }
    exists m. f_equal. simpl written. simpl inHeader.
    rewrite out_lines_meta_app by done.
    rewrite out_lines_feature by (by apply is_feature_not_meta).
    rewrite forallb_app. simpl forallb.
    rewrite (is_feature_not_meta _ Hf). simpl. by rewrite andb_false_r.
  - intros line Hm. by apply emitted_meta.
Qed.

(** The amended C2 on text: two metadata lines alone, and the same two lines followed by a region line and a late metadata line. *)
Lemma C2_metadata_passthrough_and_block_witness :
  written (@_mainLoop Pbcore.codec Ex.argv [Ex.m6A_rec]
             [Ex.version_line; Ex.seqhdr_line]).2
  = ["##gff-version 3"; "##sequence-header ref000001 chr1"]
  ∧ written (@_mainLoop Pbcore.codec Ex.argv [Ex.m6A_rec]
               ([Ex.version_line; Ex.seqhdr_line]
                ++ [Ex.region_line; Ex.late_line])).2
    = ["##gff-version 3"; "##sequence-header ref000001 chr1"]
      ++ headerBlock Ex.argv
      ++ [@toString Pbcore.codec (annotated [hit_of Ex.m6A_rec] Ex.region_rec);
          "##date today"].
Proof.
  destruct (@C2_metadata_passthrough_and_block Pbcore.codec Ex.argv
              [Ex.m6A_rec] [Ex.version_line; Ex.seqhdr_line])
    as ([m Hm] & Hfeat & _).
  - by repeat constructor.
  - split; [by rewrite Hm|].
    destruct (Hfeat Ex.region_line [Ex.late_line]) as [m' Hm'].
    + reflexivity.
    + apply Forall_cons_2; [|apply Forall_cons_2; [|constructor]].
      * right. split; [reflexivity|]. vm_compute. by eexists.
      * by left.
    + rewrite Hm'. reflexivity.
Defined.

(** ** C3: the count attributes of a region record *)

(** C3: the record written for a region feature line has the attributes
    [modsfwd] and [modsrev]; each is the comma-joined text of four tokens,
    one per known event type in the fixed order; every token is a
    non-negative integer string, the count of the overlapping hits of that
    type on that strand, and [0] for a type with no such hit. *)
Theorem C3_region_count_attributes `{codec : Gff3Codec}
    (argv : list string) (hits : list Hit.t)
    (line : string) (rec : Gff3Record.t) (st : state) :
  is_feature line = true →
  fromString line = Some rec →
  Gff3Record.type rec = "region" →
  ∃ rec' vf vr,
    body argv hits line st
    = (Val tt,
       mkState (written st ++ injected argv st ++ [toString rec'])
               (seqMap st) false)
    ∧ Gff3Record.getattr rec' "modsfwd" = Some vf
    ∧ Gff3Record.getattr rec' "modsrev" = Some vr
    ∧ vf = Py.join "," (Py.split "," vf)
    ∧ vr = Py.join "," (Py.split "," vr)
    ∧ length (Py.split "," vf) = 4
    ∧ length (Py.split "," vr) = 4
    ∧ Forall (λ t, Py.is_nat_string t = true)
             (Py.split "," vf ++ Py.split "," vr)
    ∧ ∀ i k, knownModificationEvents !! i = Some k →
        Py.split "," vf !! i
        = Some (Py.str_nat (count_type k (strandHits "+" hits rec)))
        ∧ Py.split "," vr !! i
          = Some (Py.str_nat (count_type k (strandHits "-" hits rec)))
        ∧ (count_type k (strandHits "+" hits rec) = 0 →
           Py.split "," vf !! i = Some "0")
        ∧ (count_type k (strandHits "-" hits rec) = 0 →
           Py.split "," vr !! i = Some "0").
Proof.
  intros Hf Hp Ht.
  exists (annotated hits rec),
    (countText (counts_of (strandHits "+" hits rec))),
    (countText (counts_of (strandHits "-" hits rec))).
  rewrite !split_countText by done.
  split.
  { rewrite (body_feature argv hits _ rec) by done.
    apply String.eqb_eq in Ht. by rewrite Ht. }
  split; [apply annotated_modsfwd|]. split; [apply annotated_modsrev|].
  do 2 (split; [done|]).
  do 2 (split; [by rewrite length_fmap, counts_of_length|]).
  split.
  { apply Forall_app. split; apply Forall_fmap, Forall_forall;
      intros n _; apply str_nat_is_nat_string. }
  intros i k Hk. rewrite !list_lookup_fmap.
  rewrite !(counts_of_lookup _ i k) by done. simpl.
  repeat split; try done; by intros ->.
Qed.

(** C3 on text: a region line with one forward and one reverse hit inside. *)
Lemma C3_region_count_attributes_witness :
  let hits := loadHits [Ex.m6A_rec; Ex.m4C_rev_rec] in
  ∃ rec' vf vr,
    @body Pbcore.codec Ex.argv hits Ex.region_line (mkState [] ∅ false)
    = (Val tt, mkState [@toString Pbcore.codec rec'] ∅ false)
    ∧ Gff3Record.getattr rec' "modsfwd" = Some vf
    ∧ Gff3Record.getattr rec' "modsrev" = Some vr
    ∧ vf = Py.join "," (Py.split "," vf)
    ∧ vr = Py.join "," (Py.split "," vr)
    ∧ length (Py.split "," vf) = 4
    ∧ length (Py.split "," vr) = 4
    ∧ Forall (λ t, Py.is_nat_string t = true)
             (Py.split "," vf ++ Py.split "," vr)
    ∧ ∀ i k, knownModificationEvents !! i = Some k →
        Py.split "," vf !! i
        = Some (Py.str_nat (count_type k (strandHits "+" hits Ex.region_rec)))
        ∧ Py.split "," vr !! i
          = Some (Py.str_nat
                    (count_type k (strandHits "-" hits Ex.region_rec)))
        ∧ (count_type k (strandHits "+" hits Ex.region_rec) = 0 →
           Py.split "," vf !! i = Some "0")
        ∧ (count_type k (strandHits "-" hits Ex.region_rec) = 0 →
           Py.split "," vr !! i = Some "0").
Proof.
  apply (@C3_region_count_attributes Pbcore.codec Ex.argv
           (loadHits [Ex.m6A_rec; Ex.m4C_rev_rec])
           Ex.region_line Ex.region_rec (mkState [] ∅ false)).
  - reflexivity.
  - vm_compute. reflexivity.
  - reflexivity.
Defined.

(** ** C4: which hits overlap a region *)

(** C4: a loaded hit is selected for a region record exactly when it is on
    the sequence of the record and its position is in the closed interval
    from [start] to [end]; a hit at [start] or at [end] is inside; a hit
    on a sequence that no region record of the input has changes nothing
    of the run (no count, no error), and no annotation raises. *)
Theorem C4_overlap_closed_interval `{codec : Gff3Codec}
    (argv : list string) :
  (∀ hits rec h,
     h ∈ intervalHits hits rec
     ↔ h ∈ hits
       ∧ Hit.seqid h = Gff3Record.seqid rec
       ∧ (Gff3Record.start rec ≤ Hit.pos h ≤ Gff3Record.end_ rec)%Z)
  ∧ (∀ hits rec h,
       h ∈ hits → Hit.seqid h = Gff3Record.seqid rec →
       (Gff3Record.start rec ≤ Gff3Record.end_ rec)%Z →
       Hit.pos h = Gff3Record.start rec ∨ Hit.pos h = Gff3Record.end_ rec →
       h ∈ intervalHits hits rec)
  ∧ (∀ recs1 x recs2 lines,
       (∀ line rec, line ∈ lines → fromString line = Some rec →
                    Gff3Record.type rec = "region" →
                    Gff3Record.seqid rec ≠ Gff3Record.seqid x) →
       _mainLoop argv (recs1 ++ x :: recs2) lines
       = _mainLoop argv (recs1 ++ recs2) lines)
  ∧ (∀ hits rec, is_Some (annotate hits rec)).
Proof.
  split; [apply elem_of_intervalHits|]. split; [|split].
  - intros hits rec h Hin Hseq Hle Hpos. apply elem_of_intervalHits.
    repeat split; try done; destruct Hpos as [-> | ->]; lia.
  - intros recs1 x recs2 lines Hno. rewrite !mainLoop_for.
    rewrite (for_hits_ext argv (loadHits (recs1 ++ x :: recs2))
               (loadHits (recs1 ++ recs2))); [done|].
    intros line rec Hin Hp Ht. apply annotated_ext.
    rewrite !loadHits_app, !intervalHits_app. f_equal.
    simpl loadHits.
    destruct (Py.contains knownModificationEvents (Gff3Record.type x));
      [|done].
    unfold intervalHits at 1. rewrite filter_cons.
    rewrite decide_False; [done|]. simpl. intros [_ Heq].
    by apply (Hno line rec).
  - intros hits rec. rewrite annotate_eq. by eexists.
Qed.

(** C4 on text: a hit at the end of the interval is inside, and a record on another sequence changes nothing of the run. *)
Lemma C4_overlap_closed_interval_witness :
  hit_of Ex.m4C_rev_rec
    ∈ intervalHits (loadHits [Ex.m6A_rec; Ex.m4C_rev_rec]) Ex.region_rec
  ∧ @_mainLoop Pbcore.codec Ex.argv ([Ex.m6A_rec] ++ Ex.chr2_rec :: [])
      [Ex.version_line; Ex.region_line]
    = @_mainLoop Pbcore.codec Ex.argv ([Ex.m6A_rec] ++ [])
        [Ex.version_line; Ex.region_line].
Proof.
  destruct (@C4_overlap_closed_interval Pbcore.codec Ex.argv)
    as (_ & Hedge & Hseq & _).
  split.
  - apply Hedge.
    + vm_compute. right. left.
    + reflexivity.
    + vm_compute. discriminate.
    + right. reflexivity.
  - apply Hseq. intros line rec Hin Hp _.
    apply elem_of_cons in Hin as [->|Hin].
    { vm_compute in Hp. discriminate. }
    apply elem_of_cons in Hin as [->|Hin]; [|by apply elem_of_nil in Hin].
    vm_compute in Hp. injection Hp as <-. vm_compute. discriminate.
Defined.

(** ** C5: the count aggregator *)

(** A remark on the method outside the merge: a hit with a type tag that
    is not a known event type, which the loader never produces, would add
    its tag as a key of the mapping. *)
Lemma unknown_type_would_be_a_key :
  countModificationTypes [Ex.foo_hit] !! "foo" = Some 1
  ∧ ("foo" ∉ knownModificationEvents)
  ∧ dom (countModificationTypes [Ex.foo_hit])
    ≠ list_to_set knownModificationEvents.
Proof.
  assert ("foo" ∉ knownModificationEvents) as Hfoo
    by (unfold knownModificationEvents; not_in_list).
  split; [|split; [done|]].
  - rewrite countModificationTypes_lookup. by vm_compute.
  - intros Heq. apply Hfoo.
    apply (elem_of_list_to_set (C:=gset string)). rewrite <- Heq.
    apply elem_of_dom. rewrite countModificationTypes_lookup.
    vm_compute. by eexists.
Qed.

(** C5: for every list of hits the count aggregator is given, that is for
    every list of hits of known types (the loader keeps those only, and
    the merge passes the hits of a region on one strand), the keys of the
    returned mapping are exactly the four known event types; every known
    type maps to the number of hits of that type, zero when the type is
    not seen; and the mapping is the same for every reordering of the
    list. *)
Theorem C5_count_aggregator (mods : list Hit.t) :
  Forall (λ h, Hit.type h ∈ knownModificationEvents) mods →
  dom (countModificationTypes mods) = list_to_set knownModificationEvents
  ∧ (∀ k, k ∈ knownModificationEvents →
          countModificationTypes mods !! k = Some (count_type k mods))
  ∧ (∀ k, k ∈ knownModificationEvents → k ∉ Hit.type <$> mods →
          countModificationTypes mods !! k = Some 0)
  ∧ (∀ mods', mods ≡ₚ mods' →
              countModificationTypes mods = countModificationTypes mods')
  ∧ (∀ modReader rec s,
       Forall (λ h, Hit.type h ∈ knownModificationEvents)
              (filter (λ h, Hit.strand h = s)
                      (intervalHits (loadHits modReader) rec))).
Proof.
  intros Hknown. split; [|split; [|split; [|split]]].
  - rewrite countModificationTypes_dom.
    apply set_eq. intros k. rewrite !elem_of_list_to_set, elem_of_app.
    split; [|by left]. intros [Hk|Hk]; [done|].
    apply list_elem_of_fmap in Hk as (h & -> & Hh).
    rewrite Forall_forall in Hknown. by apply Hknown.
  - intros k Hk. by apply countModificationTypes_known.
  - intros k Hk Hnot. rewrite countModificationTypes_known by done.
    f_equal. by apply count_key_zero.
  - intros mods'. apply countModificationTypes_Permutation.
  - intros modReader rec s.
    apply (strandHits_known s (loadHits modReader) rec), loadHits_known.
Qed.

(** C5 on the hits the merge passes for a region: four keys, the counts,
    and the same mapping for the two orders of the modification file. *)
Lemma C5_count_aggregator_witness :
  let mods :=
    filter (λ h, Hit.strand h = "+")
           (intervalHits (loadHits [Ex.m6A_rec; Ex.chr2_rec; Ex.m6A_rec])
                         Ex.region_rec) in
  dom (countModificationTypes mods) = list_to_set knownModificationEvents
  ∧ (∀ k, k ∈ knownModificationEvents →
          countModificationTypes mods !! k = Some (count_type k mods))
  ∧ (∀ k, k ∈ knownModificationEvents → k ∉ Hit.type <$> mods →
          countModificationTypes mods !! k = Some 0)
  ∧ (∀ mods', mods ≡ₚ mods' →
              countModificationTypes mods = countModificationTypes mods')
  ∧ (∀ modReader rec s,
       Forall (λ h, Hit.type h ∈ knownModificationEvents)
              (filter (λ h, Hit.strand h = s)
                      (intervalHits (loadHits modReader) rec))).
Proof.
  exact (C5_count_aggregator
           (filter (λ h, Hit.strand h = "+")
              (intervalHits (loadHits [Ex.m6A_rec; Ex.chr2_rec; Ex.m6A_rec])
                            Ex.region_rec))
           (strandHits_known "+" _ Ex.region_rec (loadHits_known _))).
Defined.

(** ** C6: the modification loader *)

(** C6: the loaded hits are the records of the modification file whose
    type tag is one of the four known tags, in the order of the file;
    a record with any other type tag gives no hit. *)
Theorem C6_loader_keeps_known_types (modReader : list Gff3Record.t) :
  loadHits modReader
  = hit_of <$> filter (λ x, Gff3Record.type x ∈ knownModificationEvents)
                      modReader
  ∧ (∀ h, h ∈ loadHits modReader
          ↔ ∃ x, x ∈ modReader
               ∧ Gff3Record.type x ∈ knownModificationEvents
               ∧ h = hit_of x)
  ∧ Forall (λ h, Hit.type h ∈ knownModificationEvents) (loadHits modReader)
  ∧ (∀ recs1 x recs2,
       Gff3Record.type x ∉ knownModificationEvents →
       loadHits (recs1 ++ x :: recs2) = loadHits (recs1 ++ recs2))
  ∧ knownModificationEvents = ["modified_base"; "m6A"; "m4C"; "m5C"].
Proof.
  split; [apply loadHits_filter|]. split; [apply elem_of_loadHits|].
  split; [apply loadHits_known|]. split; [|done].
  intros recs1 x recs2 Hx. rewrite !loadHits_app. f_equal.
  simpl. destruct (Py.contains _ _) eqn:Hc; [|done].
  by apply contains_spec in Hc.
Qed.

(** C6 on three records: the one of an unknown type gives no hit. *)
Lemma C6_loader_keeps_known_types_witness :
  loadHits [Ex.m6A_rec; Ex.other_type_rec; Ex.m4C_rev_rec]
  = [hit_of Ex.m6A_rec; hit_of Ex.m4C_rev_rec]
  ∧ loadHits ([Ex.m6A_rec] ++ Ex.other_type_rec :: [Ex.m4C_rev_rec])
    = loadHits ([Ex.m6A_rec] ++ [Ex.m4C_rev_rec]).
Proof.
  destruct (C6_loader_keeps_known_types
              [Ex.m6A_rec; Ex.other_type_rec; Ex.m4C_rev_rec])
    as (Heq & _ & _ & Hdrop & _).
  split.
  - rewrite Heq. reflexivity.
  - apply Hdrop. unfold knownModificationEvents. vm_compute. not_in_list.
Defined.

(** ** C7: the end-to-end example *)

(** C7: with a modification file of one [m6A] hit on [chr1], strand [+],
    position 100, and an alignment summary whose one feature line is a
    region record for [chr1] spanning [50, 150], the run returns 0 and the
    record written has [modsfwd] equal to [0,1,0,0] and [modsrev] equal to
    [0,0,0,0]. *)
Theorem C7_end_to_end_example `{codec : Gff3Codec}
    (argv : list string) (x : Gff3Record.t)
    (metas : list string) (line : string) (rec : Gff3Record.t) :
  Gff3Record.type x = "m6A" →
  Gff3Record.seqid x = "chr1" →
  Gff3Record.strand x = "+" →
  Gff3Record.start x = 100%Z →
  Forall (λ l, is_meta l = true) metas →
  is_feature line = true →
  fromString line = Some rec →
  Gff3Record.type rec = "region" →
  Gff3Record.seqid rec = "chr1" →
  Gff3Record.start rec = 50%Z →
  Gff3Record.end_ rec = 150%Z →
  ∃ rec' m,
    _mainLoop argv [x] (metas ++ [line])
    = (Val 0%Z,
       mkState ((Py.strip <$> metas) ++ headerBlock argv ++ [toString rec'])
               m false)
    ∧ Gff3Record.getattr rec' "modsfwd" = Some "0,1,0,0"
    ∧ Gff3Record.getattr rec' "modsrev" = Some "0,0,0,0".
Proof.
  intros Hxt Hxs Hxd Hxp Hmetas Hf Hp Ht Hs Hb He.
  exists (annotated (loadHits [x]) rec).
  rewrite mainLoop_for.
  destruct (for_ok argv (loadHits [x]) (metas ++ [line]) (mkState [] ∅ true))
    as [m ->].
  { apply Forall_app. split.
    - eapply Forall_impl; [exact Hmetas|]. intros l Hl. by left.
    - apply Forall_singleton. right. split; [done|by eexists]. }
  exists m. split.
  - f_equal. simpl written. simpl inHeader.
    rewrite out_lines_meta_app by done.
    rewrite out_lines_feature by (by apply is_feature_not_meta).
    simpl flat_map.
    rewrite (emitted_feature _ _ rec);
      [|by apply is_feature_not_meta|done].
    apply String.eqb_eq in Ht. rewrite Ht, app_nil_r.
    rewrite forallb_app. simpl forallb.
    rewrite (is_feature_not_meta _ Hf). simpl. by rewrite andb_false_r.
  - rewrite annotated_modsfwd, annotated_modsrev.
    unfold strandHits, intervalHits. simpl loadHits.
    rewrite Hxt, Hxs, Hxd, Hxp, Hs, Hb, He. by vm_compute.
Qed.

(** C7 on text, with two metadata lines ahead of the region line. *)
Lemma C7_end_to_end_example_witness :
  ∃ rec' m,
    @_mainLoop Pbcore.codec Ex.argv [Ex.m6A_rec]
      ([Ex.version_line; Ex.seqhdr_line] ++ [Ex.region_line])
    = (Val 0%Z,
       mkState ((Py.strip <$> [Ex.version_line; Ex.seqhdr_line])
                ++ headerBlock Ex.argv ++ [@toString Pbcore.codec rec'])
               m false)
    ∧ Gff3Record.getattr rec' "modsfwd" = Some "0,1,0,0"
    ∧ Gff3Record.getattr rec' "modsrev" = Some "0,0,0,0".
Proof.
  apply (@C7_end_to_end_example Pbcore.codec Ex.argv Ex.m6A_rec
           [Ex.version_line; Ex.seqhdr_line] Ex.region_line Ex.region_rec);
    try reflexivity.
  by repeat constructor.
Defined.

(** ** C8: a malformed feature line *)

(** C8: a feature line the reader rejects makes the run raise; the lines
    after it are not looked at; and when the lines before it are well
    formed the exception is the reader's and the output file holds what
    was written before the failure: the output of the lines before, and
    the injected block when the rejected line is the first feature
    line. *)
Theorem C8_malformed_line_is_fatal `{codec : Gff3Codec}
    (argv : list string) (modReader : list Gff3Record.t)
    (pre : list string) (bad : string) (post : list string) :
  malformed bad →
  (∃ e st, _mainLoop argv modReader (pre ++ bad :: post) = (Raise e, st))
  ∧ _mainLoop argv modReader (pre ++ bad :: post)
    = _mainLoop argv modReader (pre ++ [bad])
  ∧ (Forall line_ok pre →
     ∃ m, _mainLoop argv modReader (pre ++ bad :: post)
          = (Raise ValueError,
             mkState (written (_mainLoop argv modReader pre).2
                      ++ (if forallb is_meta pre
                          then headerBlock argv else []))
                     m false)).
Proof.
  intros Hbad. split; [|split].
  - rewrite mainLoop_for.
    destruct (for_raises argv (loadHits modReader) (pre ++ bad :: post))
      with (st := mkState [] ∅ true) as (e & st & ->).
    { apply Exists_app. right. by left. }
    by do 2 eexists.
  - rewrite !mainLoop_for. by rewrite for_malformed_cut.
  - intros Hpre. rewrite !mainLoop_for.
    destruct (for_malformed argv (loadHits modReader) pre bad post
                (mkState [] ∅ true) Hpre Hbad) as [m ->].
    destruct (for_ok argv (loadHits modReader) pre (mkState [] ∅ true) Hpre)
      as [m' ->].
    exists m. simpl. done.
Qed.

(** C8 on text: the line after the malformed one is not looked at, and the output of the two lines before it stays. *)
Lemma C8_malformed_line_is_fatal_witness :
  @_mainLoop Pbcore.codec Ex.argv [Ex.m6A_rec]
    ([Ex.version_line; Ex.region_line] ++ Ex.bad_line :: [Ex.region_line])
  = @_mainLoop Pbcore.codec Ex.argv [Ex.m6A_rec]
      ([Ex.version_line; Ex.region_line] ++ [Ex.bad_line])
  ∧ ∃ m, @_mainLoop Pbcore.codec Ex.argv [Ex.m6A_rec]
           ([Ex.version_line; Ex.region_line]
            ++ Ex.bad_line :: [Ex.region_line])
         = (Raise ValueError,
            mkState (written (@_mainLoop Pbcore.codec Ex.argv [Ex.m6A_rec]
                                [Ex.version_line; Ex.region_line]).2
                     ++ [])
                    m false).
Proof.
  destruct (@C8_malformed_line_is_fatal Pbcore.codec Ex.argv [Ex.m6A_rec]
              [Ex.version_line; Ex.region_line] Ex.bad_line
              [Ex.region_line]) as (_ & Hcut & Hout).
  - split; [reflexivity|]. vm_compute. reflexivity.
  - split; [exact Hcut|]. apply Hout.
    apply Forall_cons_2; [by left|].
    apply Forall_cons_2; [|constructor].
    right. split; [reflexivity|]. vm_compute. by eexists.
Defined.

(** ** C9: an input without a feature line *)

(** C9: when every line of the alignment summary is a metadata line (or
    there is no line at all) the run returns 0, the output is the metadata
    lines trimmed, in order, and nothing else: the block is not injected,
    and the flag is still set at the end. *)
Theorem C9_no_feature_line_no_block `{codec : Gff3Codec}
    (argv : list string) (modReader : list Gff3Record.t)
    (lines : list string) :
  Forall (λ l, is_meta l = true) lines →
  ∃ m, _mainLoop argv modReader lines
       = (Val 0%Z, mkState (Py.strip <$> lines) m true).
Proof.
  intros Hmeta. rewrite mainLoop_for.
  destruct (for_meta argv (loadHits modReader) lines (mkState [] ∅ true) Hmeta)
    as [m ->].
  by exists m.
Qed.

(** C9 on text: two metadata lines, and the empty input. *)
Lemma C9_no_feature_line_no_block_witness :
  (∃ m, @_mainLoop Pbcore.codec Ex.argv [Ex.m6A_rec]
          [Ex.version_line; Ex.seqhdr_line]
        = (Val 0%Z,
           mkState (Py.strip <$> [Ex.version_line; Ex.seqhdr_line]) m true))
  ∧ ∃ m, @_mainLoop Pbcore.codec Ex.argv [Ex.m6A_rec] []
         = (Val 0%Z, mkState (Py.strip <$> []) m true).
Proof.
  split.
  - apply (@C9_no_feature_line_no_block Pbcore.codec). by repeat constructor.
  - apply (@C9_no_feature_line_no_block Pbcore.codec). constructor.
Defined.

(** ** C10: counts by strand *)

(** C10: for a region record and the loaded hits, the tokens of [modsfwd]
    count, type by type, the overlapping hits whose strand is [+], and
    those of [modsrev] the overlapping hits whose strand is [-]; so when
    every loaded hit is on one of the two strands the eight tokens add up
    to the number of overlapping hits, and a record with any other strand
    symbol changes neither attribute. *)
Theorem C10_counts_by_strand (modReader : list Gff3Record.t)
    (rec : Gff3Record.t) :
  let hits := loadHits modReader in
  let fwd := counts_of (strandHits "+" hits rec) in
  let rev := counts_of (strandHits "-" hits rec) in
  (∃ rec' vf vr,
     annotate hits rec = Some rec'
     ∧ Gff3Record.getattr rec' "modsfwd" = Some vf
     ∧ Gff3Record.getattr rec' "modsrev" = Some vr
     ∧ mapM Py.int_of_nat_string (Py.split "," vf) = Some fwd
     ∧ mapM Py.int_of_nat_string (Py.split "," vr) = Some rev)
  ∧ (∀ i k, knownModificationEvents !! i = Some k →
       fwd !! i
       = Some (length (filter (λ h, Hit.type h = k ∧ Hit.strand h = "+")
                              (intervalHits hits rec)))
       ∧ rev !! i
         = Some (length (filter (λ h, Hit.type h = k ∧ Hit.strand h = "-")
                                (intervalHits hits rec))))
  ∧ sum_list fwd
    = length (filter (λ h, Hit.strand h = "+") (intervalHits hits rec))
  ∧ sum_list rev
    = length (filter (λ h, Hit.strand h = "-") (intervalHits hits rec))
  ∧ (Forall (λ h, Hit.strand h = "+" ∨ Hit.strand h = "-") hits →
     sum_list fwd + sum_list rev = length (intervalHits hits rec))
  ∧ (∀ recs1 x recs2,
       modReader = recs1 ++ x :: recs2 →
       Gff3Record.strand x ≠ "+" → Gff3Record.strand x ≠ "-" →
       annotate hits rec = annotate (loadHits (recs1 ++ recs2)) rec).
Proof.
  intros hits fwd rev.
  pose proof (loadHits_known modReader) as Hknown. fold hits in Hknown.
  assert (sum_list fwd
          = length (filter (λ h, Hit.strand h = "+") (intervalHits hits rec)))
    as Hfwd by (by apply sum_counts_of, strandHits_known).
  assert (sum_list rev
          = length (filter (λ h, Hit.strand h = "-") (intervalHits hits rec)))
    as Hrev by (by apply sum_counts_of, strandHits_known).
  split; [|split; [|split; [done|split; [done|split]]]].
  - exists (annotated hits rec), (countText fwd), (countText rev).
    split; [apply annotate_eq|].
    split; [apply annotated_modsfwd|]. split; [apply annotated_modsrev|].
    split; by apply countText_parse.
  - intros i k Hk. unfold fwd, rev.
    rewrite !(counts_of_lookup _ i k) by done.
    by rewrite !count_type_strandHits.
  - intros Hstrand. rewrite Hfwd, Hrev. apply length_by_strand.
    rewrite Forall_forall in Hstrand. apply Forall_forall.
    intros h [Hh _]%elem_of_intervalHits. by apply Hstrand.
  - intros recs1 x recs2 -> Hp Hm. rewrite !annotate_eq. f_equal.
    unfold hits.
    apply annotated_strand_ext; rewrite !loadHits_app, !strandHits_app;
      f_equal; simpl loadHits;
      (destruct (Py.contains _ _); [|done]);
      by apply strandHits_cons_other.
Qed.

(** C10 on records: the tokens add up to the two overlapping hits, and a record without strand changes nothing. *)
Lemma C10_counts_by_strand_witness :
  let hits := loadHits [Ex.m6A_rec; Ex.m4C_rev_rec] in
  sum_list (counts_of (strandHits "+" hits Ex.region_rec))
  + sum_list (counts_of (strandHits "-" hits Ex.region_rec))
  = length (intervalHits hits Ex.region_rec)
  ∧ annotate (loadHits [Ex.m6A_rec; Ex.unstranded_rec; Ex.m4C_rev_rec])
             Ex.region_rec
    = annotate (loadHits ([Ex.m6A_rec] ++ [Ex.m4C_rev_rec])) Ex.region_rec.
Proof.
  split.
  - apply (C10_counts_by_strand [Ex.m6A_rec; Ex.m4C_rev_rec] Ex.region_rec).
    vm_compute. apply Forall_cons_2; [by left|].
    apply Forall_cons_2; [by right|]. constructor.
  - pose proof (C10_counts_by_strand
                  [Ex.m6A_rec; Ex.unstranded_rec; Ex.m4C_rev_rec]
                  Ex.region_rec) as H.
    cbv zeta in H. destruct H as (_ & _ & _ & _ & _ & Hdrop).
    apply (Hdrop [Ex.m6A_rec] Ex.unstranded_rec [Ex.m4C_rev_rec]);
      [reflexivity|vm_compute; discriminate..].
Defined.

(** * Further properties of the merge *)

(** ** Outcome of the loop *)

Section outcome.
Context {codec : Gff3Codec}.
Variables (argv : list string) (hits : list Hit.t).

Lemma line_cases line :
  line = EmptyString ∨ line_ok line ∨ malformed line.
Proof.
  destruct line as [|c s]; [by left|]. right.
  destruct (is_meta (String c s)) eqn:Hm; [left; by left|].
  assert (is_feature (String c s) = true) as Hf
    by (rewrite is_meta_feature by done; by rewrite Hm).
  destruct (fromString (String c s)) as [rec|] eqn:Hp.
  - left. right. split; [done|]. rewrite Hp. by eexists.
  - by right.
Qed.

Lemma line_ok_not_malformed line : line_ok line → ¬ malformed line.
Proof.
  intros [Hm|[_ [rec Hp]]] [Hf Hn].
  - apply is_feature_not_meta in Hf. congruence.
  - congruence.
Qed.

Lemma line_ok_nonempty line : line_ok line → line ≠ EmptyString.
Proof. intros [Hm|[Hf _]] ->; done. Qed.

(** An empty line stops the loop with [IndexError]. *)
Lemma for_empty pre post st :
  Forall line_ok pre →
  ∃ m, for_ (pre ++ EmptyString :: post) (body argv hits) st
       = (Raise IndexError,
          mkState (written st ++ out_lines argv hits (inHeader st) pre) m
                  (inHeader st && forallb is_meta pre)).
Proof.
  intros Hpre. rewrite for_app.
  destruct (for_ok argv hits pre st Hpre) as [m ->]. simpl for_.
  erewrite bind_raise by apply (body_empty argv hits). by exists m.
Qed.

(** The loop gets through all lines, or stops at the first line that is
    malformed or empty. *)
Lemma for_outcome lines st :
  (Forall line_ok lines
   ∧ ∃ st', for_ lines (body argv hits) st = (Val tt, st'))
  ∨ (∃ pre bad post st',
       lines = pre ++ bad :: post ∧ Forall line_ok pre
       ∧ ((malformed bad
           ∧ for_ lines (body argv hits) st = (Raise ValueError, st'))
          ∨ (bad = EmptyString
             ∧ for_ lines (body argv hits) st = (Raise IndexError, st')))).
Proof.
  revert st. induction lines as [|l lines IH]; intros st.
  - left. split; [constructor|]. by eexists.
  - destruct (line_cases l) as [->|[Hok|Hbad]].
    + right. exists [], EmptyString, lines.
      destruct (for_empty [] lines st) as [m Hm]; [constructor|].
      eexists. split; [done|]. split; [constructor|]. right. split; [done|].
      exact Hm.
    + assert (∃ st1, body argv hits l st = (Val tt, st1)) as [st1 Hb].
      { destruct (for_ok argv hits [l] st) as [m Hm];
          [by apply Forall_singleton|].
        simpl for_ in Hm. unfold mbind, M_bind in Hm.
        destruct (body argv hits l st) as [[[]|e] st1]; [|done].
        by eexists. }
      simpl for_. rewrite (bind_val _ _ _ _ _ Hb).
      destruct (IH st1) as [[Hall [st' Hst']]|
                            (pre & bad & post & st' & -> & Hpre & Hcase)].
      * left. split; [by constructor|]. by eexists.
      * right. exists (l :: pre), bad, post, st'.
        split; [done|]. split; [by constructor|]. done.
    + right. exists [], l, lines.
      destruct (for_malformed argv hits [] l lines st) as [m Hm];
        [constructor|done|].
      eexists. split; [done|]. split; [constructor|]. left. split; [done|].
      exact Hm.
Qed.

(** The output only grows. *)
Lemma body_written_prefix line st :
  written st `prefix_of` written (body argv hits line st).2.
Proof.
  destruct (line_cases line) as [->|[[Hm|[Hf [rec Hp]]]|Hbad]].
  - done.
  - destruct (body_meta argv hits line st Hm) as [m ->]. by eexists.
  - rewrite (body_feature argv hits _ rec) by done. by eexists.
  - rewrite body_malformed by done. by eexists.
Qed.

Lemma for_written_prefix lines : ∀ st,
  written st `prefix_of` written (for_ lines (body argv hits) st).2.
Proof.
  induction lines as [|l lines IH]; intros st; [done|]. simpl for_.
  pose proof (body_written_prefix l st) as Hb. unfold mbind, M_bind.
  destruct (body argv hits l st) as [[[]|e] st1]; [|done].
  etrans; [exact Hb|apply IH].
Qed.

End outcome.

(** ** The order of the modification records *)

Lemma loadHits_Permutation recs recs' :
  recs ≡ₚ recs' → loadHits recs ≡ₚ loadHits recs'.
Proof. intros Hp. rewrite !loadHits_filter. by rewrite Hp. Qed.

Lemma strandHits_Permutation s hits hits' rec :
  hits ≡ₚ hits' → strandHits s hits rec ≡ₚ strandHits s hits' rec.
Proof. intros Hp. unfold strandHits, intervalHits. by rewrite Hp. Qed.

Lemma counts_of_Permutation l l' : l ≡ₚ l' → counts_of l = counts_of l'.
Proof.
  intros Hp. unfold counts_of, count_type.
  apply list_fmap_ext. intros _ k _. by apply count_key_Permutation.
Qed.

Lemma annotated_Permutation hits hits' rec :
  hits ≡ₚ hits' → annotated hits rec = annotated hits' rec.
Proof.
  intros Hp. unfold annotated.
  by rewrite !(counts_of_Permutation _ _ (strandHits_Permutation _ _ _ rec Hp)).
Qed.

(** ** The size of the output *)

Section size.
Context {codec : Gff3Codec}.
Variables (argv : list string) (hits : list Hit.t).

Lemma headerBlock_length : length (headerBlock argv) = 6.
Proof. done. Qed.

Lemma is_region_line_meta line : is_meta line = true → is_region_line line = false.
Proof. intros Hm. unfold is_region_line. by rewrite Hm. Qed.

Lemma length_emitted line :
  length (emitted hits line)
  = if is_meta line then 1 else if is_region_line line then 1 else 0.
Proof.
  unfold emitted, is_region_line. destruct (is_meta line); [done|]. simpl.
  destruct (fromString line) as [rec|]; [|done].
  by destruct (String.eqb (Gff3Record.type rec) "region").
Qed.

Lemma length_out_lines lines : ∀ h : bool,
  length (out_lines argv hits h lines)
  = length (filter (λ l, is_meta l = true) lines)
    + (if h && negb (forallb is_meta lines) then 6 else 0)
    + length (filter (λ l, is_region_line l = true) lines).
Proof.
  induction lines as [|l lines IH]; intros h.
  - simpl. by rewrite andb_false_r.
  - simpl out_lines. rewrite !filter_cons. simpl forallb.
    destruct (is_meta l) eqn:Hm.
    + rewrite (is_region_line_meta _ Hm).
      rewrite decide_True by done. rewrite decide_False by done.
      simpl. rewrite IH. lia.
    + rewrite decide_False by congruence. simpl.
      rewrite andb_true_r, !length_app, length_emitted, Hm, IH. simpl.
      destruct h; rewrite ?headerBlock_length;
        destruct (is_region_line l); simpl; lia.
Qed.

End size.

(** ** The attribute dictionary under repeated assignment *)

Lemma set_set_eq k v1 v2 d :
  Gff3Record.set k v2 (Gff3Record.set k v1 d) = Gff3Record.set k v2 d.
Proof.
  induction d as [|[k0 v0] d IH]; simpl.
  - by rewrite decide_True.
  - destruct (decide (k0 = k)) as [->|Hne]; simpl.
    + by rewrite decide_True.
    + rewrite decide_False by done. by rewrite IH.
Qed.

Lemma set_comm_present k k' v v' d :
  k ≠ k' → is_Some (Gff3Record.get k d) →
  Gff3Record.set k v (Gff3Record.set k' v' d)
  = Gff3Record.set k' v' (Gff3Record.set k v d).
Proof.
  intros Hne. induction d as [|[k0 v0] d IH]; simpl.
  - by intros ?%is_Some_None.
  - destruct (decide (k0 = k)) as [->|Hk]; simpl.
    + intros _. rewrite decide_False by done. simpl.
      rewrite decide_True by done. by rewrite decide_False by done.
    + intros Hd. destruct (decide (k0 = k')) as [->|Hk']; simpl.
      * by rewrite decide_False by done.
      * rewrite decide_False by done. by rewrite IH.
Qed.

Lemma set_absent k v d :
  Gff3Record.get k d = None → Gff3Record.set k v d = d ++ [(k, v)].
Proof.
  induction d as [|[k0 v0] d IH]; simpl; [done|].
  destruct (decide (k0 = k)); [done|]. intros Hd. by rewrite IH.
Qed.

Lemma set_length k v d :
  (length d ≤ length (Gff3Record.set k v d) ≤ S (length d))%nat.
Proof.
  induction d as [|[k0 v0] d IH]; simpl; [lia|].
  destruct (decide (k0 = k)); simpl; lia.
Qed.

Lemma get_app_None k d d' :
  Gff3Record.get k d = None →
  Gff3Record.get k (d ++ d') = Gff3Record.get k d'.
Proof.
  induction d as [|[k0 v0] d IH]; simpl; [done|].
  by destruct (decide (k0 = k)).
Qed.

(** Annotating an annotated record replaces the two counts. *)
Lemma annotated_annotated hits1 hits2 rec :
  annotated hits2 (annotated hits1 rec) = annotated hits2 rec.
Proof.
  unfold annotated at 1 3. unfold Gff3Record.setattr. simpl. f_equal.
  change (strandHits "+" hits2 (annotated hits1 rec))
    with (strandHits "+" hits2 rec).
  change (strandHits "-" hits2 (annotated hits1 rec))
    with (strandHits "-" hits2 rec).
  rewrite (set_comm_present "modsfwd" "modsrev").
  - by rewrite set_set_eq, set_set_eq.
  - done.
  - rewrite get_set_eq. by eexists.
Qed.

(** ** Counts that are all zero *)

Lemma countText_zero counts :
  length counts = 4 →
  countText counts = "0,0,0,0" ↔ counts = [0; 0; 0; 0].
Proof.
  intros Hlen. split; [|by intros ->].
  intros Htext. assert (counts ≠ []) as Hne by (by intros ->).
  pose proof (countText_parse counts Hne) as Hparse.
  rewrite Htext in Hparse. vm_compute in Hparse. congruence.
Qed.

Lemma counts_of_zero l :
  counts_of l = [0; 0; 0; 0]
  ↔ ∀ h, h ∈ l → Hit.type h ∉ knownModificationEvents.
Proof.
  unfold counts_of, knownModificationEvents, count_type. simpl. split.
  - intros [= H1 H2 H3 H4] h Hh Hk.
    apply count_key_zero in H1, H2, H3, H4.
    assert (Hit.type h ∈ Hit.type <$> l) as Hin
      by (apply list_elem_of_fmap; by exists h).
    rewrite !elem_of_cons in Hk.
    destruct Hk as [Hk|[Hk|[Hk|[Hk|Hk]]]];
      [rewrite Hk in Hin; done..|by apply elem_of_nil in Hk].
  - intros Hno.
    assert (∀ k, k ∈ ["modified_base"; "m6A"; "m4C"; "m5C"] →
                 count_key Hit.type k l = 0) as Hz.
    { intros k Hk. apply count_key_zero.
      intros (h & -> & Hh)%list_elem_of_fmap. by apply (Hno h). }
    rewrite !Hz; [done|set_solver..].
Qed.

Lemma intervalHits_empty hits rec :
  (Gff3Record.end_ rec < Gff3Record.start rec)%Z → intervalHits hits rec = [].
Proof.
  intros Hlt. unfold intervalHits. induction hits as [|h hits IH]; [done|].
  rewrite filter_cons, IH. rewrite decide_False; [done|]. lia.
Qed.

(** ** The count mapping as a whole *)

Lemma count_total_insert k n (c : gmap string nat) :
  c !! k = None → count_total (<[k := n]> c) = n + count_total c.
Proof.
  intros Hk. unfold count_total.
  rewrite map_fold_insert_L; [done| |done].
  intros. lia.
Qed.

Lemma count_total_delete k n (c : gmap string nat) :
  c !! k = Some n → count_total c = n + count_total (delete k c).
Proof.
  intros Hk. rewrite <- (insert_delete_id c k n) at 1 by done.
  apply count_total_insert. apply lookup_delete_eq.
Qed.

(** One more hit adds one to the count of its type. *)
Lemma countModificationTypes_cons h mods :
  countModificationTypes (h :: mods)
  = <[Hit.type h := S (count_type (Hit.type h) mods)]>
      (countModificationTypes mods).
Proof.
  apply map_eq. intros k.
  rewrite lookup_insert, !countModificationTypes_lookup.
  unfold count_type. rewrite count_key_cons.
  destruct (decide (Hit.type h = k)) as [->|Hne]; simpl; done.
Qed.

Lemma count_total_countModificationTypes mods :
  count_total (countModificationTypes mods) = length mods.
Proof.
  induction mods as [|h mods IH]; [by vm_compute|].
  rewrite countModificationTypes_cons.
  rewrite <- insert_delete_eq.
  rewrite count_total_insert by apply lookup_delete_eq.
  simpl. f_equal. rewrite <- IH.
  pose proof (countModificationTypes_lookup mods (Hit.type h)) as Hl.
  fold (count_type (Hit.type h) mods) in *.
  destruct (decide (count_type (Hit.type h) mods = 0)) as [Hz|Hz].
  - rewrite Hz. simpl.
    destruct (decide (Hit.type h ∈ knownModificationEvents)).
    + by rewrite (count_total_delete _ 0 _ Hl).
    + by rewrite delete_id.
  - by rewrite (count_total_delete _ _ _ Hl).
Qed.

(** ** Groups of a sorted list *)

Section groups.
Context {A : Type} (key : A → string).

Local Abbreviation R := (λ x y : A, String.le (key x) (key y)).

(** Grouping loses nothing and keeps the order. *)
Lemma groupby_go_concat l : ∀ k g,
  concat (Py.groupby_go key k g l).*2 = g ++ l.
Proof.
  induction l as [|x l IH]; intros k g; simpl.
  - by rewrite !app_nil_r.
  - case_decide; simpl; rewrite IH; [by rewrite <- app_assoc|done].
Qed.

Lemma groupby_concat l : concat (Py.groupby key l).*2 = l.
Proof. destruct l as [|x l]; [done|]. apply (groupby_go_concat l _ [x]). Qed.

(** Every group is not empty and holds elements of its key only. *)
Lemma groupby_go_groups l : ∀ k g,
  g ≠ [] → Forall (λ x, key x = k) g →
  Forall (λ kg, kg.2 ≠ [] ∧ Forall (λ x, key x = kg.1) kg.2)
         (Py.groupby_go key k g l).
Proof.
  induction l as [|x l IH]; intros k g Hne Hg; simpl.
  - by repeat constructor.
  - case_decide as Hk.
    + apply IH; [by destruct g|]. apply Forall_app. split; [done|].
      by apply Forall_singleton.
    + constructor; [done|]. apply IH; [done|]. by apply Forall_singleton.
Qed.

Lemma groupby_groups l :
  Forall (λ kg, kg.2 ≠ [] ∧ Forall (λ x, key x = kg.1) kg.2)
         (Py.groupby key l).
Proof.
  destruct l as [|x l]; [constructor|].
  apply groupby_go_groups; [done|]. by apply Forall_singleton.
Qed.

Lemma groupby_go_keys l : ∀ k g k',
  k' ∈ (Py.groupby_go key k g l).*1 → k' = k ∨ k' ∈ key <$> l.
Proof.
  induction l as [|x l IH]; intros k g k'; simpl.
  - intros ->%list_elem_of_singleton. by left.
  - case_decide as Hk.
    + intros [->|Hin]%IH; [by left|]. right. by right.
    + simpl. intros [->|[->|Hin]%IH]%elem_of_cons; [by left|..].
      * right. by left.
      * right. by right.
Qed.

(** On a sorted list no key comes twice. *)
Lemma groupby_go_NoDup l : ∀ k g,
  StronglySorted R l → Forall (λ x, String.le k (key x)) l →
  NoDup (Py.groupby_go key k g l).*1.
Proof.
  induction l as [|x l IH]; intros k g Hs Hle; simpl.
  - apply NoDup_singleton.
  - apply StronglySorted_cons in Hs as [Hx Hs].
    apply Forall_cons in Hle as [Hkx Hle].
    case_decide as Hk; [by apply IH|].
    simpl. apply NoDup_cons. split; [|by apply IH].
    intros [Heq|Hin]%groupby_go_keys; [done|].
    apply list_elem_of_fmap in Hin as (y & Hy & Hin).
    rewrite Forall_forall in Hx. specialize (Hx y Hin). simpl in Hx.
    apply Hk. apply (anti_symm String.le); [by rewrite Hy|done].
Qed.

Lemma groupby_NoDup l :
  StronglySorted R l → NoDup (Py.groupby key l).*1.
Proof.
  destruct l as [|x l]; [constructor|]. intros [Hx Hs]%StronglySorted_cons.
  by apply groupby_go_NoDup.
Qed.

Lemma filter_key_all (l : list A) k :
  Forall (λ x, key x = k) l → filter (λ x, key x = k) l = l.
Proof.
  induction 1 as [|x l Hx _ IH]; [done|].
  rewrite filter_cons, decide_True by done. by rewrite IH.
Qed.

Lemma filter_key_none (l : list A) k1 k2 :
  k1 ≠ k2 → Forall (λ x, key x = k1) l → filter (λ x, key x = k2) l = [].
Proof.
  intros Hne. induction 1 as [|x l Hx _ IH]; [done|].
  by rewrite filter_cons, decide_False by congruence.
Qed.

Lemma filter_concat_other k (gs : list (string * list A)) :
  k ∉ gs.*1 →
  Forall (λ kg, kg.2 ≠ [] ∧ Forall (λ x, key x = kg.1) kg.2) gs →
  filter (λ x, key x = k) (concat gs.*2) = [].
Proof.
  induction gs as [|[k' g'] gs IH]; [done|].
  rewrite !fmap_cons. cbn [fst snd concat].
  intros [Hne Hk]%not_elem_of_cons [[_ Hg'] Hgs]%Forall_cons.
  cbn [fst snd] in Hg'.
  rewrite filter_app, IH by done.
  by rewrite (filter_key_none g' k' k) by done.
Qed.

(** With distinct keys every group is the elements of its key. *)
Lemma groups_filter (gs : list (string * list A)) :
  NoDup gs.*1 →
  Forall (λ kg, kg.2 ≠ [] ∧ Forall (λ x, key x = kg.1) kg.2) gs →
  Forall (λ kg, kg.2 = filter (λ x, key x = kg.1) (concat gs.*2)) gs.
Proof.
  induction gs as [|[k g] gs IH]; [constructor|].
  rewrite !fmap_cons. cbn [fst snd concat].
  intros [Hk Hnd]%NoDup_cons [[Hne Hg] Hgs]%Forall_cons.
  cbn [fst snd] in Hg.
  constructor.
  - cbn [fst snd]. rewrite filter_app, filter_key_all by done.
    by rewrite filter_concat_other, app_nil_r.
  - specialize (IH Hnd Hgs).
    rewrite Forall_forall in IH |- *. intros [k' g'] Hin. cbn [fst snd].
    rewrite filter_app. rewrite (filter_key_none g k k'); [|..|done].
    + by apply (IH _ Hin).
    + intros ->. apply Hk. apply list_elem_of_fmap. by exists (k', g').
Qed.

End groups.

Lemma sum_counts_of_cons h l :
  sum_list (counts_of (h :: l))
  = (if decide (Hit.type h ∈ knownModificationEvents) then 1 else 0)
    + sum_list (counts_of l).
Proof.
  unfold counts_of, knownModificationEvents, count_type. simpl.
  rewrite !count_key_cons.
  destruct (decide (Hit.type h ∈ ["modified_base"; "m6A"; "m4C"; "m5C"]))
    as [Hin|Hnot].
  - rewrite !elem_of_cons in Hin.
    destruct Hin as [Hh|[Hh|[Hh|[Hh|Hh]]]]; [..|by apply elem_of_nil in Hh];
      rewrite Hh; repeat case_decide; try done; lia.
  - rewrite !decide_False; [lia|intros Hh; apply Hnot; rewrite Hh..].
    all: set_solver.
Qed.

Lemma sum_counts_of_le l : (sum_list (counts_of l) ≤ length l)%nat.
Proof.
  induction l as [|h l IH]; [by vm_compute|].
  rewrite sum_counts_of_cons. cbn [length]. case_decide; lia.
Qed.

Lemma sum_counts_of_eq l :
  sum_list (counts_of l) = length l
  ↔ Forall (λ h, Hit.type h ∈ knownModificationEvents) l.
Proof.
  split; [|apply sum_counts_of].
  induction l as [|h l IH]; [constructor|].
  rewrite sum_counts_of_cons. cbn [length].
  pose proof (sum_counts_of_le l).
  case_decide; [|lia]. intros Hs. constructor; [done|]. apply IH. lia.
Qed.

(** ** The numbers written for a region *)

Lemma writtenCounts_modsfwd hits rec :
  writtenCounts hits rec "modsfwd"
  = Some (counts_of (strandHits "+" hits rec)).
Proof.
  unfold writtenCounts, attrCounts. rewrite annotate_eq. simpl.
  rewrite annotated_modsfwd. simpl. by apply countText_parse.
Qed.

Lemma writtenCounts_modsrev hits rec :
  writtenCounts hits rec "modsrev"
  = Some (counts_of (strandHits "-" hits rec)).
Proof.
  unfold writtenCounts, attrCounts. rewrite annotate_eq. simpl.
  rewrite annotated_modsrev. simpl. by apply countText_parse.
Qed.

Lemma counts_of_app l1 l2 :
  counts_of (l1 ++ l2) = zip_with Nat.add (counts_of l1) (counts_of l2).
Proof.
  unfold counts_of, knownModificationEvents, count_type. simpl.
  by rewrite !count_key_app.
Qed.



(** ** Strings without a character *)

Lemma append_String c s t : String c s +:+ t = String c (s +:+ t).
Proof. done. Qed.

Lemma append_empty t : EmptyString +:+ t = t.
Proof. done. Qed.

Lemma append_empty_r s : s +:+ EmptyString = s.
Proof. induction s as [|c s IH]; [done|]. by rewrite append_String, IH. Qed.

Lemma append_assoc s t u : (s +:+ t) +:+ u = s +:+ (t +:+ u).
Proof.
  induction s as [|c s IH]; [done|]. by rewrite !append_String, IH.
Qed.

Lemma no_char_app c s t :
  no_char c (s +:+ t) = no_char c s && no_char c t.
Proof.
  induction s as [|d s IH]; [done|].
  rewrite append_String. simpl. rewrite IH. by rewrite andb_assoc.
Qed.


Lemma remove_no_char c s : no_char c s = true → Py.remove c s = s.
Proof.
  induction s as [|d s IH]; [done|]. simpl.
  intros [Hd Hs]%andb_true_iff. apply negb_true_iff in Hd.
  by rewrite Hd, IH.
Qed.

Lemma remove_app c s t : Py.remove c (s +:+ t) = Py.remove c s +:+ Py.remove c t.
Proof.
  induction s as [|d s IH]; [done|]. rewrite append_String. simpl.
  destruct (Ascii.eqb d c); [done|]. by rewrite append_String, IH.
Qed.








Lemma partition_go_app sep a b :
  no_char sep a = true →
  Py.partition_go sep (a +:+ String sep b) = Some (a, b).
Proof.
  induction a as [|d a IH].
  - intros _. rewrite append_empty. simpl. by rewrite Ascii.eqb_refl.
  - simpl no_char. intros [Hd Ha]%andb_true_iff. apply negb_true_iff in Hd.
    rewrite append_String. simpl. by rewrite Hd, IH.
Qed.


Lemma join_split sep s : Py.join (String sep EmptyString) (Py.split sep s) = s.
Proof.
  unfold Py.join. induction s as [|d s IH]; [done|]. simpl.
  destruct (Ascii.eqb_spec d sep) as [->|Hne].
  - pose proof (split_nonempty sep s) as Hne.
    destruct (Py.split sep s) as [|w ws] eqn:Hsp; [done|].
    change (String.concat (String sep EmptyString) (EmptyString :: w :: ws))
      with (String sep (String.concat (String sep EmptyString) (w :: ws))).
    by rewrite IH.
  - pose proof (split_nonempty sep s) as Hne'.
    destruct (Py.split sep s) as [|w ws] eqn:Hsp; [done|].
    destruct ws as [|w' ws].
    + simpl in *. by rewrite IH.
    + change (String.concat (String sep EmptyString) (String d w :: w' :: ws))
        with (String d (String.concat (String sep EmptyString) (w :: w' :: ws))).
      by rewrite IH.
Qed.

(** ** The sequence names noted by the loop *)


Section seqMap.
Context {codec : Gff3Codec}.
Variables (argv : list string) (hits : list Hit.t).

Lemma body_seqMap line st :
  seqMap (body argv hits line st).2 = noted line (seqMap st).
Proof.
  unfold noted.
  destruct (line_cases line) as [->|[[Hm|[Hf [rec Hp]]]|Hbad]].
  - done.
  - rewrite Hm. destruct line as [|c s]; [done|].
    change (Ascii.eqb c "#" = true) in Hm. unfold body, seqHeader.
    rewrite Hm.
    pose proof (split_nonempty " " (Py.remove "#" (String c s))) as Hne.
    destruct (Py.split " " (Py.remove "#" (String c s))) as [|field rest];
      [done|].
    destruct (String.eqb field "sequence-header"); [|done].
    by destruct (Py.partition " " (Py.strip (Py.join " " rest)))
      as [[internalTag delim] externalTag].
  - rewrite (is_feature_not_meta _ Hf).
    by rewrite (body_feature argv hits _ rec).
  - destruct Hbad as [Hf Hp]. rewrite (is_feature_not_meta _ Hf).
    by rewrite body_malformed.
Qed.

Lemma for_seqMap lines : ∀ st,
  ∃ used, used `prefix_of` lines
    ∧ seqMap (for_ lines (body argv hits) st).2
      = foldl (λ m line, noted line m) (seqMap st) used
    ∧ ((for_ lines (body argv hits) st).1 = Val tt → used = lines).
Proof.
  induction lines as [|l lines IH]; intros st.
  - exists []. by repeat split.
  - simpl for_. unfold mbind, M_bind.
    pose proof (body_seqMap l st) as Hb.
    destruct (body argv hits l st) as [[[]|e] st1] eqn:Hbody.
    + destruct (IH st1) as (used & Hpre & Hmap & Hall).
      exists (l :: used). split; [by apply prefix_cons|].
      split; [|by intros ->%Hall].
      simpl in *. by rewrite Hmap, Hb.
    + exists [l]. split; [by apply prefix_cons, prefix_nil|].
      split; [|done]. simpl in *. by rewrite Hb.
Qed.

End seqMap.

Section seqMap_more.
Context {codec : Gff3Codec}.
Variables (argv : list string) (hits : list Hit.t).

Lemma noted_not_meta line m : is_meta line = false → noted line m = m.
Proof. intros Hm. unfold noted. by rewrite Hm. Qed.

Lemma foldl_noted_filter lines : ∀ m,
  foldl (λ m line, noted line m) m lines
  = foldl (λ m line, noted line m) m (filter (λ l, is_meta l = true) lines).
Proof.
  induction lines as [|l lines IH]; intros m; [done|].
  rewrite filter_cons. simpl foldl. destruct (is_meta l) eqn:Hm.
  - rewrite decide_True by done. simpl. apply IH.
  - rewrite decide_False by congruence. rewrite noted_not_meta by done.
    apply IH.
Qed.

(** Lines the loop gets through: the map is folded over all of them. *)
Lemma for_seqMap_ok lines st :
  Forall line_ok lines →
  seqMap (for_ lines (body argv hits) st).2
  = foldl (λ m line, noted line m) (seqMap st) lines.
Proof.
  intros Hok. destruct (for_seqMap argv hits lines st) as (used & _ & -> & Hall).
  destruct (for_ok argv hits lines st Hok) as [m Hm].
  rewrite Hall; [done|]. by rewrite Hm.
Qed.


End seqMap_more.

(** ** Stripping *)

Lemma append_nonempty_r s t : t ≠ EmptyString → s +:+ t ≠ EmptyString.
Proof. destruct s; [done|]. by rewrite append_String. Qed.

Lemma rstrip_app_space s t :
  Py.rstrip t = EmptyString → Py.rstrip (s +:+ t) = Py.rstrip s.
Proof.
  intros Ht. induction s as [|c s IH]; [done|].
  rewrite append_String. simpl. by rewrite IH.
Qed.

Lemma rstrip_app_kept s t :
  Py.rstrip t ≠ EmptyString → Py.rstrip (s +:+ t) = s +:+ Py.rstrip t.
Proof.
  intros Ht. induction s as [|c s IH]; [done|].
  rewrite !append_String. simpl. rewrite IH.
  pose proof (append_nonempty_r s _ Ht) as Hne.
  by destruct (s +:+ Py.rstrip t).
Qed.

Lemma lstrip_nonspace c s :
  Py.isspace c = false → Py.lstrip (String c s) = String c s.
Proof. intros Hc. simpl. by rewrite Hc. Qed.

Lemma all_chars_nonspace_no_space s :
  all_chars (λ c, negb (Py.isspace c)) s = true → no_char " " s = true.
Proof.
  induction s as [|c s IH]; [done|]. simpl.
  intros [Hc Hs]%andb_true_iff. rewrite IH by done.
  destruct (Ascii.eqb_spec c " ") as [->|]; [done|done].
Qed.

Lemma partition_app sep a b :
  no_char sep a = true →
  Py.partition sep (a +:+ String sep b) = (a, String sep EmptyString, b).
Proof. intros Ha. unfold Py.partition. by rewrite partition_go_app. Qed.

(** The parts of a sequence-header line, as the loop body computes them. *)
Lemma seqHeaderLine_parts id name :
  id ≠ EmptyString →
  all_chars (λ c, negb (Py.isspace c)) id = true →
  no_char "#" id = true →
  name ≠ EmptyString → Py.rstrip name = name → no_char "#" name = true →
  is_meta (seqHeaderLine id name) = true
  ∧ Py.strip (seqHeaderLine id name)
    = "##sequence-header " +:+ id +:+ " " +:+ name
  ∧ seqHeader (seqHeaderLine id name) = Some (id, name).
Proof.
  intros Hid Hws Hhash Hname Hr Hnhash.
  assert (Py.rstrip (name +:+ nl) = name) as Hrn
    by (by rewrite rstrip_app_space).
  assert (Py.rstrip (" " +:+ name +:+ nl) = " " +:+ name) as Hr1.
  { rewrite rstrip_app_kept; by rewrite Hrn. }
  assert (Py.rstrip (id +:+ " " +:+ name +:+ nl) = id +:+ " " +:+ name) as Hr2.
  { rewrite rstrip_app_kept; by rewrite Hr1. }
  split; [done|]. split.
  - unfold Py.strip, seqHeaderLine.
    rewrite rstrip_app_kept; rewrite Hr2; [done|].
    by apply append_nonempty_r, append_nonempty_r.
  - unfold seqHeader, seqHeaderLine.
    change ("##sequence-header " +:+ id +:+ " " +:+ name +:+ nl)
      with ("##" +:+ ("sequence-header" +:+ String " " (id +:+ String " " (name +:+ nl)))).
    rewrite remove_app. change (Py.remove "#" "##") with EmptyString.
    rewrite append_empty.
    rewrite remove_no_char.
    2:{ rewrite no_char_app. simpl. rewrite no_char_app. simpl.
        rewrite no_char_app. by rewrite Hhash, Hnhash. }
    rewrite split_app_sep by done.
    change (String.eqb "sequence-header" "sequence-header") with true.
    cbv iota. rewrite join_split.
    change (id +:+ String " " (name +:+ nl))
      with (id +:+ " " +:+ name +:+ nl).
    unfold Py.strip. rewrite Hr2.
    destruct id as [|c id']; [done|]. rewrite append_String.
    simpl in Hws. apply andb_true_iff in Hws as [Hc Hws'].
    rewrite lstrip_nonspace by (by apply negb_true_iff).
    rewrite <- append_String.
    change (String c id' +:+ " " +:+ name)
      with (String c id' +:+ String " " name).
    rewrite partition_app; [done|].
    apply all_chars_nonspace_no_space. simpl. by rewrite Hc, Hws'.
Qed.

(** * Further theorems *)

(** ** Outcome, growth and size of the output *)

(** X1: the run returns, and then returns 0, exactly when every line of
    the alignment summary is a metadata line or a feature line the reader
    accepts; it raises [ValueError] exactly when the first line that is
    not is a feature line the reader rejects, and [IndexError] exactly
    when that line is empty; it never raises [KeyError]. *)
Theorem X1_run_outcome `{codec : Gff3Codec}
    (argv : list string) (modReader : list Gff3Record.t)
    (lines : list string) :
  let r := (_mainLoop argv modReader lines).1 in
  (r = Val 0%Z ↔ Forall line_ok lines)
  ∧ (r = Raise ValueError
     ↔ ∃ pre bad post,
         lines = pre ++ bad :: post ∧ Forall line_ok pre ∧ malformed bad)
  ∧ (r = Raise IndexError
     ↔ ∃ pre post,
         lines = pre ++ EmptyString :: post ∧ Forall line_ok pre)
  ∧ r ≠ Raise KeyError
  ∧ (∀ z, r = Val z → z = 0%Z).
Proof.
  intros r. unfold r. rewrite mainLoop_for.
  pose (st0 := mkState [] ∅ true).
  destruct (for_outcome argv (loadHits modReader) lines st0)
    as [[Hall [st' Hst']]|(pre & bad & post & st' & Hl & Hpre & Hcase)];
    fold st0.
  - rewrite Hst'. simpl. split; [done|].
    assert (∀ pre bad post, lines = pre ++ bad :: post →
              ¬ (malformed bad ∨ bad = EmptyString)) as Hno.
    { intros pre bad post -> [Hbad| ->];
        apply Forall_app in Hall as [_ [Hb _]%Forall_cons].
      - by apply (line_ok_not_malformed bad).
      - by apply (line_ok_nonempty EmptyString). }
    split; [|split; [|split; [done|by intros z [= <-]]]].
    + split; [done|]. intros (p & b & q & Hl & _ & Hb).
      destruct (Hno p b q Hl). by left.
    + split; [done|]. intros (p & q & Hl & _).
      destruct (Hno p EmptyString q Hl). by right.
  - assert (¬ line_ok bad) as Hbad'.
    { destruct Hcase as [[Hbad _]|[-> _]].
      - intros Hok. by apply (line_ok_not_malformed bad).
      - intros Hok. by apply (line_ok_nonempty EmptyString). }
    assert (¬ Forall line_ok lines) as Hnot.
    { rewrite Hl. by intros [_ [Hb _]%Forall_cons]%Forall_app. }
    (* the first line that is not well formed is unique *)
    assert (∀ p b q, lines = p ++ b :: q → Forall line_ok p → ¬ line_ok b →
              p = pre ∧ b = bad) as Huniq.
    { intros p b q Hl' Hp Hb. rewrite Hl in Hl'. clear Hl Hnot Hcase.
      revert p Hl' Hp.
      induction Hpre as [|x pre Hx Hpre IH]; intros p Hl' Hp.
      - destruct p as [|y p]; simpl in Hl'; [by injection Hl' as -> _|].
        injection Hl' as <- _. by apply Forall_cons in Hp as [? _].
      - destruct p as [|y p]; simpl in Hl'.
        + injection Hl' as -> _. done.
        + injection Hl' as <- Hl'. apply Forall_cons in Hp as [_ Hp].
          destruct (IH p Hl' Hp) as [-> ->]. done. }
    destruct Hcase as [[Hbad ->]|[-> ->]]; simpl.
    + split; [done|]. split; [|split; [|done]].
      * split; [|done]. intros _. by exists pre, bad, post.
      * split; [done|]. intros (p & q & Hl' & Hp).
        destruct (Huniq p EmptyString q Hl' Hp) as [_ <-].
        { by intros ?%line_ok_nonempty. }
        by destruct Hbad.
    + split; [done|]. split; [|split; [|done]].
      * split; [done|]. intros (p & b & q & Hl' & Hp & Hb).
        destruct (Huniq p b q Hl' Hp) as [_ ->].
        { intros Hok. by apply (line_ok_not_malformed b). }
        by destruct Hb.
      * split; [|done]. intros _. by exists pre, post.
Qed.

(** X2: the output file only grows while the lines are read: what a run
    has written for the first lines of the alignment summary is the start
    of what it has written for the whole summary, whether or not either
    run raises. *)
Theorem X2_output_only_grows `{codec : Gff3Codec}
    (argv : list string) (modReader : list Gff3Record.t)
    (pre post : list string) :
  written (_mainLoop argv modReader pre).2
  `prefix_of` written (_mainLoop argv modReader (pre ++ post)).2.
Proof.
  rewrite !mainLoop_for, for_app.
  destruct (for_ pre _ _) as [[[]|e] st] eqn:Hpre; [|done].
  pose proof (for_written_prefix argv (loadHits modReader) post st) as Hp.
  by destruct (for_ post _ st) as [[[]|e] st'].
Qed.

(** X3: the order of the records of the modification file does not
    matter: two modification files with the same records in another order
    give the same run, output and result. *)
Theorem X3_record_order_irrelevant `{codec : Gff3Codec}
    (argv : list string) (recs recs' : list Gff3Record.t)
    (lines : list string) :
  recs ≡ₚ recs' →
  _mainLoop argv recs lines = _mainLoop argv recs' lines.
Proof.
  intros Hp. rewrite !mainLoop_for.
  rewrite (for_hits_ext argv (loadHits recs) (loadHits recs')); [done|].
  intros line rec _ _ _.
  by apply annotated_Permutation, loadHits_Permutation.
Qed.

(** X3 on text: two records swapped. *)
Lemma X3_record_order_irrelevant_witness :
  @_mainLoop Pbcore.codec Ex.argv [Ex.m6A_rec; Ex.m4C_rev_rec]
    [Ex.version_line; Ex.region_line]
  = @_mainLoop Pbcore.codec Ex.argv [Ex.m4C_rev_rec; Ex.m6A_rec]
      [Ex.version_line; Ex.region_line].
Proof.
  apply (@X3_record_order_irrelevant Pbcore.codec). apply Permutation_swap.
Defined.

(** X4: a run that gets through the alignment summary writes one line per
    metadata line, one line per feature line of type region, no line for
    any other feature line, and the six lines of the block when there is a
    feature line. *)
Theorem X4_output_size `{codec : Gff3Codec}
    (argv : list string) (modReader : list Gff3Record.t)
    (lines : list string) :
  Forall line_ok lines →
  length (written (_mainLoop argv modReader lines).2)
  = length (filter (λ l, is_meta l = true) lines)
    + (if forallb is_meta lines then 0 else 6)
    + length (filter (λ l, is_region_line l = true) lines).
Proof.
  intros Hok. rewrite mainLoop_for.
  destruct (for_ok argv (loadHits modReader) lines (mkState [] ∅ true) Hok)
    as [m ->].
  simpl. rewrite length_out_lines. by destruct (forallb is_meta lines).
Qed.

(** X4 on text: two metadata lines, a region line and a gene line give
    nine lines. *)
Lemma X4_output_size_witness :
  length (written (@_mainLoop Pbcore.codec Ex.argv [Ex.m6A_rec]
                     [Ex.version_line; Ex.region_line; Ex.gene_line;
                      Ex.late_line]).2)
  = 2 + 6 + 1.
Proof.
  rewrite (@X4_output_size Pbcore.codec).
  - by vm_compute.
  - apply Forall_cons_2; [by left|].
    apply Forall_cons_2;
      [right; split; [reflexivity|]; vm_compute; by eexists|].
    apply Forall_cons_2;
      [right; split; [reflexivity|]; vm_compute; by eexists|].
    apply Forall_cons_2; [by left|constructor].
Defined.

(** ** The annotation of a region record *)

(** X5: a count attribute is the text [0,0,0,0] exactly when no hit of a
    known type overlaps the region on that strand; this is so for both
    attributes when the interval of the record is empty ([end] before
    [start]). *)
Theorem X5_zero_counts (hits : list Hit.t) (rec : Gff3Record.t) :
  ∃ rec' vf vr,
    annotate hits rec = Some rec'
    ∧ Gff3Record.getattr rec' "modsfwd" = Some vf
    ∧ Gff3Record.getattr rec' "modsrev" = Some vr
    ∧ (vf = "0,0,0,0"
       ↔ ∀ h, h ∈ intervalHits hits rec → Hit.strand h = "+" →
              Hit.type h ∉ knownModificationEvents)
    ∧ (vr = "0,0,0,0"
       ↔ ∀ h, h ∈ intervalHits hits rec → Hit.strand h = "-" →
              Hit.type h ∉ knownModificationEvents)
    ∧ ((Gff3Record.end_ rec < Gff3Record.start rec)%Z →
       vf = "0,0,0,0" ∧ vr = "0,0,0,0").
Proof.
  exists (annotated hits rec),
    (countText (counts_of (strandHits "+" hits rec))),
    (countText (counts_of (strandHits "-" hits rec))).
  split; [apply annotate_eq|].
  split; [apply annotated_modsfwd|]. split; [apply annotated_modsrev|].
  assert (∀ s, countText (counts_of (strandHits s hits rec)) = "0,0,0,0"
               ↔ ∀ h, h ∈ intervalHits hits rec → Hit.strand h = s →
                      Hit.type h ∉ knownModificationEvents) as Hz.
  { intros s. rewrite countText_zero by apply counts_of_length.
    rewrite counts_of_zero. unfold strandHits.
    split.
    - intros H h Hh Hs. apply H. by apply list_elem_of_filter.
    - intros H h [Hs Hh]%list_elem_of_filter. by apply H. }
  split; [apply Hz|]. split; [apply Hz|].
  intros Hlt. split; apply Hz; intros h Hh;
    rewrite intervalHits_empty in Hh by done; by apply elem_of_nil in Hh.
Qed.

(** X5 on records: a region whose interval is empty. *)
Lemma X5_zero_counts_witness :
  ∃ rec' vf vr,
    annotate (loadHits [Ex.m6A_rec; Ex.m4C_rev_rec]) Ex2.empty_region_rec
    = Some rec'
    ∧ Gff3Record.getattr rec' "modsfwd" = Some vf
    ∧ Gff3Record.getattr rec' "modsrev" = Some vr
    ∧ vf = "0,0,0,0" ∧ vr = "0,0,0,0".
Proof.
  destruct (X5_zero_counts (loadHits [Ex.m6A_rec; Ex.m4C_rev_rec])
              Ex2.empty_region_rec)
    as (rec' & vf & vr & Ha & Hf & Hr & _ & _ & Hempty).
  exists rec', vf, vr. repeat split; try done; by apply Hempty.
Defined.

(** X6: the annotation leaves the eight columns of the record and every
    other attribute as they are; the two count attributes are added at
    the end, [modsfwd] first, when the record has neither. *)
Theorem X6_annotation_keeps_record (hits : list Hit.t)
    (rec rec' : Gff3Record.t) :
  annotate hits rec = Some rec' →
  (Gff3Record.seqid rec' = Gff3Record.seqid rec
   ∧ Gff3Record.source rec' = Gff3Record.source rec
   ∧ Gff3Record.type rec' = Gff3Record.type rec
   ∧ Gff3Record.start rec' = Gff3Record.start rec
   ∧ Gff3Record.end_ rec' = Gff3Record.end_ rec
   ∧ Gff3Record.score rec' = Gff3Record.score rec
   ∧ Gff3Record.strand rec' = Gff3Record.strand rec
   ∧ Gff3Record.phase rec' = Gff3Record.phase rec)
  ∧ (∀ k, k ≠ "modsfwd" → k ≠ "modsrev" →
          Gff3Record.getattr rec' k = Gff3Record.getattr rec k)
  ∧ (Gff3Record.getattr rec "modsfwd" = None →
     Gff3Record.getattr rec "modsrev" = None →
     ∃ vf vr, Gff3Record.attributes rec'
              = Gff3Record.attributes rec
                ++ [("modsfwd", vf); ("modsrev", vr)])
  ∧ (length (Gff3Record.attributes rec)
     ≤ length (Gff3Record.attributes rec')
     ≤ length (Gff3Record.attributes rec) + 2)%nat.
Proof.
  rewrite annotate_eq. intros [= <-]. split; [done|]. split; [|split].
  - intros k Hf Hr. unfold annotated.
    by rewrite !getattr_setattr_ne by done.
  - intros Hf Hr. do 2 eexists. unfold annotated, Gff3Record.setattr. simpl.
    unfold Gff3Record.getattr in Hf, Hr.
    rewrite (set_absent "modsfwd") by done.
    rewrite set_absent; [by rewrite <- app_assoc|].
    by rewrite get_app_None by done.
  - unfold annotated, Gff3Record.setattr. simpl.
    pose proof (set_length "modsfwd"
                  (countText (counts_of (strandHits "+" hits rec)))
                  (Gff3Record.attributes rec)).
    pose proof (set_length "modsrev"
                  (countText (counts_of (strandHits "-" hits rec)))
                  (Gff3Record.set "modsfwd"
                     (countText (counts_of (strandHits "+" hits rec)))
                     (Gff3Record.attributes rec))).
    lia.
Qed.

(** X6 on records: the region record of the examples has neither count
    attribute, so both are added at the end. *)
Lemma X6_annotation_keeps_record_witness :
  ∃ vf vr,
    Gff3Record.attributes (annotated (loadHits [Ex.m6A_rec]) Ex.region_rec)
    = Gff3Record.attributes Ex.region_rec
      ++ [("modsfwd", vf); ("modsrev", vr)].
Proof.
  destruct (X6_annotation_keeps_record (loadHits [Ex.m6A_rec]) Ex.region_rec
              (annotated (loadHits [Ex.m6A_rec]) Ex.region_rec))
    as (_ & _ & Happ & _).
  - apply annotate_eq.
  - apply Happ; reflexivity.
Defined.

(** X7: annotating a record that has been annotated replaces the two
    counts and nothing else: the result is the annotation of the original
    record, so the annotation with the same hits changes nothing and no
    attribute is written twice. *)
Theorem X7_reannotation_overwrites (hits1 hits2 : list Hit.t)
    (rec rec1 : Gff3Record.t) :
  annotate hits1 rec = Some rec1 →
  annotate hits2 rec1 = annotate hits2 rec
  ∧ annotate hits1 rec1 = Some rec1.
Proof.
  rewrite !annotate_eq. intros [= <-].
  by rewrite !annotated_annotated.
Qed.

(** X7 on records: a record that carries old counts. *)
Lemma X7_reannotation_overwrites_witness :
  annotate (loadHits [Ex.m6A_rec])
    (annotated (loadHits [Ex.m4C_rev_rec]) Ex2.counted_region_rec)
  = annotate (loadHits [Ex.m6A_rec]) Ex2.counted_region_rec
  ∧ annotate (loadHits [Ex.m4C_rev_rec])
      (annotated (loadHits [Ex.m4C_rev_rec]) Ex2.counted_region_rec)
    = Some (annotated (loadHits [Ex.m4C_rev_rec]) Ex2.counted_region_rec).
Proof.
  exact (X7_reannotation_overwrites (loadHits [Ex.m4C_rev_rec])
           (loadHits [Ex.m6A_rec]) Ex2.counted_region_rec
           (annotated (loadHits [Ex.m4C_rev_rec]) Ex2.counted_region_rec)
           (annotate_eq _ _)).
Defined.

(** ** The count aggregator *)

(** X8: counting a concatenation is adding the counts: the mapping of two
    lists of hits put together has the keys of both mappings, and at every
    key the sum of the two counts. *)
Theorem X8_counts_of_concatenation (mods1 mods2 : list Hit.t) :
  countModificationTypes (mods1 ++ mods2)
  = union_with (λ a b, Some (a + b))
      (countModificationTypes mods1) (countModificationTypes mods2).
Proof.
  apply map_eq. intros k.
  rewrite lookup_union_with, !countModificationTypes_lookup.
  unfold count_type. rewrite count_key_app.
  repeat case_decide; simpl; try done; try lia; f_equal; lia.
Qed.

(** X9: no hit is lost or counted twice: the counts of the mapping add up
    to the number of hits of the input.  The counts of the four known
    event types, which are the ones written, add up to at most that, and
    to exactly that when every hit has a known type and only then. *)
Theorem X9_counts_account_for_hits (mods : list Hit.t) :
  count_total (countModificationTypes mods) = length mods
  ∧ (sum_list (counts_of mods) ≤ length mods)%nat
  ∧ (sum_list (counts_of mods) = length mods
     ↔ Forall (λ h, Hit.type h ∈ knownModificationEvents) mods)
  ∧ countTokens (countModificationTypes mods)
    = Some (Py.str_nat <$> counts_of mods).
Proof.
  split; [apply count_total_countModificationTypes|].
  split; [apply sum_counts_of_le|].
  split; [apply sum_counts_of_eq|apply countTokens_eq].
Qed.

(** X10: why the hits are sorted before they are grouped: in the groups
    of the sorted list no type tag comes twice, the tags are those of the
    input, and the group of a tag is the list of all hits of that type,
    in the order of the input; so each assignment [counts[k] = len(g)]
    stores the number of all hits of type [k]. *)
Theorem X10_groups_of_sorted_hits (mods : list Hit.t) :
  let gs := Py.groupby Hit.type (Py.sorted Hit.type mods) in
  NoDup gs.*1
  ∧ (∀ k, k ∈ gs.*1 ↔ k ∈ Hit.type <$> mods)
  ∧ Forall (λ kg, kg.2 ≠ []
                  ∧ kg.2 = filter (λ h, Hit.type h = kg.1) mods) gs
  ∧ concat gs.*2 ≡ₚ mods.
Proof.
  intros gs.
  pose proof (sorted_StronglySorted Hit.type mods) as Hs.
  pose proof (groupby_NoDup Hit.type _ Hs) as Hnd. fold gs in Hnd.
  pose proof (groupby_groups Hit.type (Py.sorted Hit.type mods)) as Hg.
  fold gs in Hg.
  pose proof (groupby_concat Hit.type (Py.sorted Hit.type mods)) as Hc.
  fold gs in Hc.
  pose proof (groups_filter Hit.type gs Hnd Hg) as Hf.
  rewrite Hc in Hf.
  assert (Forall (λ kg, kg.2 ≠ []
                        ∧ kg.2 = filter (λ h, Hit.type h = kg.1) mods) gs)
    as Hgroups.
  { rewrite Forall_forall in Hg, Hf |- *. intros kg Hin.
    split; [by apply Hg|]. rewrite (Hf kg Hin). apply sorted_filter. }
  split; [done|]. split; [|split; [done|]].
  - intros k. split.
    + intros ([k' g] & -> & Hin)%list_elem_of_fmap. simpl.
      rewrite Forall_forall in Hgroups.
      destruct (Hgroups _ Hin) as [Hne Heq]. simpl in *.
      destruct g as [|h g]; [done|].
      assert (h ∈ filter (λ h, Hit.type h = k') mods) as Hh
        by (rewrite <- Heq; by left).
      apply list_elem_of_filter in Hh as [<- Hh].
      apply list_elem_of_fmap. by exists h.
    + intros (h & -> & Hh)%list_elem_of_fmap.
      assert (h ∈ concat gs.*2) as Hin
        by (rewrite Hc; by rewrite sorted_Permutation).
      apply list_elem_of_In, in_concat in Hin as (g & Hgin & Hhg).
      apply list_elem_of_In in Hgin, Hhg.
      apply list_elem_of_fmap in Hgin as ([k g'] & -> & Hkg). simpl in *.
      rewrite Forall_forall in Hg. destruct (Hg _ Hkg) as [_ Hall].
      simpl in Hall. rewrite Forall_forall in Hall.
      rewrite (Hall h Hhg). apply list_elem_of_fmap. by exists (k, g').
  - rewrite Hc. apply sorted_Permutation.
Qed.

(** ** Regions and modification files put together *)



(** X12: with two modification files put one after the other, the numbers
    written for a region are, type by type, the sums of the numbers
    written with each file alone. *)
Theorem X12_modification_files_add_up (recs1 recs2 : list Gff3Record.t)
    (rec : Gff3Record.t) (a : string) :
  a = "modsfwd" ∨ a = "modsrev" →
  ∃ c1 c2,
    writtenCounts (loadHits recs1) rec a = Some c1
    ∧ writtenCounts (loadHits recs2) rec a = Some c2
    ∧ writtenCounts (loadHits (recs1 ++ recs2)) rec a
      = Some (zip_with Nat.add c1 c2).
Proof.
  intros [-> | ->]; do 2 eexists.
  - rewrite !writtenCounts_modsfwd. repeat split.
    by rewrite loadHits_app, strandHits_app, counts_of_app.
  - rewrite !writtenCounts_modsrev. repeat split.
    by rewrite loadHits_app, strandHits_app, counts_of_app.
Qed.

(** X12 on records: one file with the forward hit, one with the reverse
    hit. *)
Lemma X12_modification_files_add_up_witness :
  ∃ c1 c2,
    writtenCounts (loadHits [Ex.m6A_rec]) Ex.region_rec "modsrev" = Some c1
    ∧ writtenCounts (loadHits [Ex.m4C_rev_rec]) Ex.region_rec "modsrev"
      = Some c2
    ∧ writtenCounts (loadHits ([Ex.m6A_rec] ++ [Ex.m4C_rev_rec]))
        Ex.region_rec "modsrev"
      = Some (zip_with Nat.add c1 c2).
Proof.
  apply (X12_modification_files_add_up [Ex.m6A_rec] [Ex.m4C_rev_rec]
           Ex.region_rec "modsrev").
  by right.
Defined.

(** ** The sequence names noted in [seqMap] *)



(** X14: [seqMap] is made from the metadata lines alone: a run that gets
    through the alignment summary ends with the map of the run on the
    metadata lines only, whatever the command line and the modification
    file. *)
Theorem X14_seqMap_from_metadata `{codec : Gff3Codec}
    (argv argv' : list string) (modReader modReader' : list Gff3Record.t)
    (lines : list string) :
  Forall line_ok lines →
  seqMap (_mainLoop argv modReader lines).2
  = seqMap (_mainLoop argv' modReader'
              (filter (λ l, is_meta l = true) lines)).2.
Proof.
  intros Hok.
  assert (Forall line_ok (filter (λ l, is_meta l = true) lines)) as Hok'.
  { apply Forall_forall. intros l [Hm _]%list_elem_of_filter. by left. }
  rewrite !mainLoop_for.
  pose proof (for_seqMap_ok argv (loadHits modReader) lines
                (mkState [] ∅ true) Hok) as H1.
  pose proof (for_seqMap_ok argv' (loadHits modReader') _
                (mkState [] ∅ true) Hok') as H2.
  destruct (for_ lines _ _) as [[[]|e] st]; simpl in *;
    destruct (for_ (filter _ lines) _ _) as [[[]|e'] st']; simpl in *;
    rewrite H1, H2; apply foldl_noted_filter.
Qed.

(** X14 on text: the region line and the modification file do not
    matter. *)
Lemma X14_seqMap_from_metadata_witness :
  seqMap (@_mainLoop Pbcore.codec Ex.argv [Ex.m6A_rec]
            [Ex.version_line; Ex.seqhdr_line; Ex.region_line]).2
  = seqMap (@_mainLoop Pbcore.codec [] []
              (filter (λ l, is_meta l = true)
                 [Ex.version_line; Ex.seqhdr_line; Ex.region_line])).2.
Proof.
  apply (@X14_seqMap_from_metadata Pbcore.codec).
  apply Forall_cons_2; [by left|]. apply Forall_cons_2; [by left|].
  apply Forall_cons_2; [|constructor].
  right. split; [reflexivity|]. vm_compute. by eexists.
Defined.

(** X15: a sequence-header line with an internal tag without white space
    and an external name that does not end in white space (neither with a
    [#]) is written trimmed and noted: the loop body stores the name
    under the tag, and a run that ends with the line ends with the name
    under the tag. *)
Theorem X15_sequence_header_noted `{codec : Gff3Codec}
    (argv : list string) (modReader : list Gff3Record.t)
    (pre : list string) (id name : string) :
  id ≠ EmptyString →
  all_chars (λ c, negb (Py.isspace c)) id = true →
  no_char "#" id = true →
  name ≠ EmptyString →
  Py.rstrip name = name →
  no_char "#" name = true →
  (∀ hits st,
     body argv hits (seqHeaderLine id name) st
     = (Val tt,
        mkState (written st ++ ["##sequence-header " +:+ id +:+ " " +:+ name])
                (<[id := name]> (seqMap st)) (inHeader st)))
  ∧ (Forall line_ok pre →
     seqMap (_mainLoop argv modReader (pre ++ [seqHeaderLine id name])).2
       !! id = Some name).
Proof.
  intros Hid Hws Hhash Hname Hr Hnhash.
  destruct (seqHeaderLine_parts id name Hid Hws Hhash Hname Hr Hnhash)
    as (Hmeta & Hstrip & Hhdr).
  assert (∀ hits st,
    body argv hits (seqHeaderLine id name) st
    = (Val tt,
       mkState (written st ++ ["##sequence-header " +:+ id +:+ " " +:+ name])
               (<[id := name]> (seqMap st)) (inHeader st))) as Hbody.
  { intros hits st.
    pose proof (body_seqMap argv hits (seqHeaderLine id name) st) as Hmap.
    destruct (body_meta argv hits _ st Hmeta) as [m Hb].
    rewrite Hb in Hmap |- *. simpl in Hmap. rewrite Hmap, Hstrip.
    unfold noted. by rewrite Hmeta, Hhdr. }
  split; [done|].
  intros Hpre. rewrite mainLoop_for, for_app.
  destruct (for_ok argv (loadHits modReader) pre (mkState [] ∅ true) Hpre)
    as [m ->].
  unfold for_, mbind, M_bind. rewrite Hbody.
  simpl. apply lookup_insert_eq.
Qed.

(** X15 on text: a run that ends with a sequence-header line. *)
Lemma X15_sequence_header_noted_witness :
  seqMap (@_mainLoop Pbcore.codec Ex.argv [Ex.m6A_rec]
            ([Ex.version_line; Ex.region_line]
             ++ [seqHeaderLine "ref000002" "chr 2"])).2
    !! "ref000002" = Some "chr 2".
Proof.
  refine (proj2 (@X15_sequence_header_noted Pbcore.codec Ex.argv [Ex.m6A_rec]
                   [Ex.version_line; Ex.region_line] "ref000002" "chr 2"
                   _ _ _ _ _ _) _); try done.
  apply Forall_cons_2; [by left|]. apply Forall_cons_2; [|constructor].
  right. split; [reflexivity|]. vm_compute. by eexists.
Defined.
